(** * The query request handler of elephant

    A shallow embedding of [internal/comm/handlers/queryrequesthandler.go]
    (package [handlers]): the comparator [sortEntries], the routing of
    [menus:<menu>] names, the result cap, the web-search suppression and the
    emission loop of [QueryRequest.Handle], followed by the properties of
    the dispatcher that the specification states.

    Go strings are byte sequences: they are modelled by [string] (a list of
    8-bit [ascii]).  Machine integers are [Z] with their wrap-around written
    out.  The package-level map [queries] is a [gmap]. *)

From Stdlib Require Import ZArith Ascii String List Sorted Permutation Lia.
From Stdlib Require Import DecimalString.
From stdpp Require Import base decidable list sorting gmap strings.

Local Open Scope string_scope.
Local Open Scope list_scope.
Local Open Scope Z_scope.

(** ** Package [strings] *)

Module strings.

(** The numeric value of a byte, the key of Go's string comparison. *)
Definition byteval (c : ascii) : N := N_of_ascii c.

(** [strings.Compare(a, b)]: -1, 0 or +1, lexicographic on the bytes. *)
Fixpoint Compare (a b : string) : Z :=
  match a, b with
  | EmptyString, EmptyString => 0
  | EmptyString, String _ _ => -1
  | String _ _, EmptyString => 1
  | String x a', String y b' =>
      if (byteval x <? byteval y)%N then -1
      else if (byteval y <? byteval x)%N then 1
      else Compare a' b'
  end.

(** [strings.HasPrefix(s, prefix)]. *)
Definition HasPrefix (s prefix : string) : bool := String.prefix prefix s.

(** [strings.Split(s, sep)] for a separator of one byte, the only use the
    handler makes of it ([strings.Split(v, ":")]): the pieces of [s]
    between the occurrences of [sep]; [n] occurrences give [n + 1] pieces. *)
Fixpoint Split (s : string) (sep : ascii) : list string :=
  match s with
  | EmptyString => [EmptyString]
  | String c s' =>
      if Ascii.eqb c sep then EmptyString :: Split s' sep
      else match Split s' sep with
           | [] => [String c EmptyString]
           | p :: ps => String c p :: ps
           end
  end.

(** Whether the byte [c] occurs in [s]. *)
Fixpoint ContainsByte (s : string) (c : ascii) : bool :=
  match s with
  | EmptyString => false
  | String x s' => Ascii.eqb x c || ContainsByte s' c
  end.

(** ASCII lowering, the behaviour of [strings.ToLower] on ASCII text. *)
Definition lower_byte (c : ascii) : ascii :=
  let n := N_of_ascii c in
  if ((65 <=? n) && (n <=? 90))%N then ascii_of_N (n + 32) else c.

Fixpoint ToLowerASCII (s : string) : string :=
  match s with
  | EmptyString => EmptyString
  | String c s' => String (lower_byte c) (ToLowerASCII s')
  end.

End strings.

(** ** Package [slices] *)

Module slices.

(** [slices.Contains(xs, x)] on strings. *)
Definition Contains (xs : list string) (x : string) : bool :=
  existsb (String.eqb x) xs.

End slices.

(** ** What the handler takes from Go's standard library

    [strings.ToLower] lowers by Unicode rune and [slices.SortFunc] is an
    unstable pattern-defeating quicksort; neither is code of this
    repository.  The handler is verified against their contracts:
    [ToLower] is any function on strings, and [SortFunc] returns a
    permutation of its argument that is sorted whenever the comparator is a
    strict weak ordering (the precondition its documentation states). *)

Record StrictWeak {A : Type} (cmp : A → A → Z) : Prop := {
  sw_antisym : ∀ a b, Z.sgn (cmp b a) = - Z.sgn (cmp a b);
  sw_trans : ∀ a b c, cmp a b ≤ 0 → cmp b c ≤ 0 → cmp a c ≤ 0
}.

Class GoStd := {
  ToLower : string → string;
  SortFunc : ∀ {A : Type}, (A → A → Z) → list A → list A;
  SortFunc_Permutation :
    ∀ (A : Type) (cmp : A → A → Z) (l : list A), SortFunc cmp l ≡ₚ l;
  SortFunc_sorted :
    ∀ (A : Type) (cmp : A → A → Z) (l : list A),
      StrictWeak cmp → StronglySorted (λ a b, cmp a b ≤ 0) (SortFunc cmp l)
}.

(** ** Package [pb]: the wire records *)

Module pb.

(** [pb.QueryResponse_Item]; [Score] is an [int32]. *)
Record QueryResponse_Item := {
  Identifier : string;
  Text : string;
  Subtext : string;
  Icon : string;
  Provider : string;
  Score : Z;
  Actions : list string;
  State : list string
}.

(** [pb.QueryRequest]; [Maxresults] is an [int32]. *)
Record QueryRequest := {
  Providers : list string;
  Query : string;
  Maxresults : Z;
  Exactsearch : bool
}.

(** [pb.QueryResponse]; [Qid] is an [int32]. *)
Record QueryResponse := {
  Qid : Z;
  RQuery : string;
  Item : QueryResponse_Item
}.

(** [&pb.QueryRequest{}], the zero value decoded into. *)
Definition empty_request : QueryRequest :=
  {| Providers := []; Query := ""; Maxresults := 0; Exactsearch := false |}.

End pb.

Abbreviation Item := pb.QueryResponse_Item.

(** ** The comparator *)

Section Comparator.
Context `{GoStd}.

(** [sortEntries(a, b)]. *)
Definition sortEntries (a b : Item) : Z :=
  if pb.Score a >? pb.Score b then -1
  else if pb.Score b >? pb.Score a then 1
  else strings.Compare (ToLower (pb.Text a)) (ToLower (pb.Text b)).

(** The order the specification names: score descending, then the lowered
    text ascending. *)
Definition ranked_before (a b : Item) : Prop :=
  pb.Score b < pb.Score a ∨
  (pb.Score a = pb.Score b ∧
   strings.Compare (ToLower (pb.Text a)) (ToLower (pb.Text b)) ≤ 0).

End Comparator.

(** ** Package [providers] *)

Module providers.

(** The one method of the provider interface that the handler calls:
    [Query(conn, text, single, exact, format)].  The connection is only
    handed through. *)
Record Provider := {
  Query : string → bool → bool → Z → list Item
}.

End providers.

(** ** Package [handlers] *)

Abbreviation bytes := (list Z).

Definition QueryDone : Z := 255.
Definition QueryNoResults : Z := 254.
Definition StatusDone : Z := 253.
Definition QueryItem : Z := 0.
Definition QueryAsyncItem : Z := 1.
Definition ActivationFinished : Z := 2.
Definition ProviderState : Z := 3.

(** Conversions between machine integers. *)
Definition uint32 (n : Z) : Z := n mod 2 ^ 32.
Definition int32 (n : Z) : Z := (n + 2 ^ 31) mod 2 ^ 32 - 2 ^ 31.

(** [binary.BigEndian.PutUint32]. *)
Definition PutUint32 (n : Z) : bytes :=
  [(n / 2 ^ 24) mod 256; (n / 2 ^ 16) mod 256; (n / 2 ^ 8) mod 256; n mod 256].

(** A [context.CancelFunc] is identified with the context it cancels;
    contexts are numbered in the order [context.WithCancel] creates them. *)
Abbreviation CancelFunc := nat.

(** The package-level variables, with the two pieces of runtime state the
    cancel functions act on.  A [nil] function stored in [queries] is [None].
    [WebsearchPrefixes] is listed in the order [range] visits it. *)
Record Globals := {
  queries : gmap Z (option CancelFunc);
  MaxGlobalItemsToDisplayWebsearch : Z;
  WebsearchAlwaysShow : bool;
  WebsearchPrefixes : list (string * string);
  qid : Z;
  contexts : nat;
  cancelled : gset nat
}.

(** What the handler's surroundings decide: the two codecs, the registry
    [providers.Providers], the order in which the fan-out tasks append
    their results, what each [isCncld()] observes (number 0 after the
    barrier, number [i + 1] at the head of iteration [i] of the emission
    loop) and whether the [conn.Write] of iteration [i] succeeds. *)
Record World := {
  proto_Unmarshal : bytes → option pb.QueryRequest;
  json_Unmarshal : bytes → option pb.QueryRequest;
  proto_Marshal : pb.QueryResponse → option bytes;
  json_Marshal : pb.QueryResponse → option bytes;
  Providers : gmap string providers.Provider;
  arrival : list (list Item) → list (list Item);
  ctx_done : nat → bool;
  conn_Write : nat → bool
}.

(** What was written to the connection: the opcode, the envelope a data
    frame encodes, and the bytes. *)
Record Frame := {
  opcode : Z;
  envelope : option pb.QueryResponse;
  wire : bytes
}.

Inductive LogEntry :=
  | LogError (msg key : string)
  | LogInfo (msg p : string) (results : nat).

Inductive Exit := Returned | Panicked.

(** A run of the handler: the frames written, the log, how it left, whether
    it closed the connection, and the package-level variables after it. *)
Record Outcome := {
  frames : list Frame;
  log : list LogEntry;
  exit : Exit;
  closed : bool;
  globals : Globals
}.

(** Modelled from the spec: [writeStatus], of package [handlers] but not
    among the sources; a status frame is its opcode and a zero length. *)
Definition writeStatus (code : Z) : Frame :=
  {| opcode := code; envelope := None; wire := code :: PutUint32 0 |}.

(** The data frame built in the emission loop. *)
Definition dataFrame (code : Z) (resp : pb.QueryResponse) (b : bytes) : Frame :=
  {| opcode := code; envelope := Some resp;
     wire := code :: PutUint32 (uint32 (Z.of_nat (length b))) ++ b |}.

(** The two [switch format] statements; a format other than 0 and 1
    decodes nothing and encodes to no bytes, without an error. *)
Definition Unmarshal (w : World) (format : Z) (data : bytes) : option pb.QueryRequest :=
  match format with
  | 0 => proto_Unmarshal w data
  | 1 => json_Unmarshal w data
  | _ => Some pb.empty_request
  end.

Definition Marshal (w : World) (format : Z) (resp : pb.QueryResponse) : option bytes :=
  match format with
  | 0 => proto_Marshal w resp
  | 1 => json_Marshal w resp
  | _ => Some []
  end.

(** The loop over [WebsearchPrefixes]: the value of the last prefix visited
    that the query starts with. *)
Fixpoint lastPrefix (prefixes : list (string * string)) (query acc : string) : string :=
  match prefixes with
  | [] => acc
  | (k, v) :: rest =>
      lastPrefix rest query (if strings.HasPrefix query k then v else acc)
  end.

Definition wsprefixOf (g : Globals) (req : pb.QueryRequest) : string :=
  if slices.Contains (pb.Providers req) "websearch"
  then lastPrefix (WebsearchPrefixes g) (pb.Query req) ""
  else "".

(** The swap under [queryMutex]: call the handle found in the slot unless
    it is [nil], then store the new one. *)
Definition install (g : Globals) (cid : Z) : Globals :=
  {| queries := <[cid := Some (contexts g)]> (queries g);
     MaxGlobalItemsToDisplayWebsearch := MaxGlobalItemsToDisplayWebsearch g;
     WebsearchAlwaysShow := WebsearchAlwaysShow g;
     WebsearchPrefixes := WebsearchPrefixes g;
     qid := qid g;
     contexts := S (contexts g);
     cancelled := match queries g !! cid with
                  | Some (Some val) => {[val]} ∪ cancelled g
                  | _ => cancelled g
                  end |}.

(** Calling a cancel function. *)
Definition cancel (ctx : CancelFunc) (g : Globals) : Globals :=
  {| queries := queries g;
     MaxGlobalItemsToDisplayWebsearch := MaxGlobalItemsToDisplayWebsearch g;
     WebsearchAlwaysShow := WebsearchAlwaysShow g;
     WebsearchPrefixes := WebsearchPrefixes g;
     qid := qid g;
     contexts := contexts g;
     cancelled := {[ctx]} ∪ cancelled g |}.

(** [qid.Add(1)] on the [atomic.Uint32]. *)
Definition addQid (g : Globals) : Globals :=
  {| queries := queries g;
     MaxGlobalItemsToDisplayWebsearch := MaxGlobalItemsToDisplayWebsearch g;
     WebsearchAlwaysShow := WebsearchAlwaysShow g;
     WebsearchPrefixes := WebsearchPrefixes g;
     qid := uint32 (qid g + 1);
     contexts := contexts g;
     cancelled := cancelled g |}.

(** The head of the fan-out loop: the provider looked up and the query
    handed to it, for the name [v] of the request. *)
Definition route (v query : string) : string * string :=
  if strings.HasPrefix v "menus:" then
    let split := strings.Split v ":"%char in
    (default "" (split !! 0%nat), default "" (split !! 1%nat) ++ ":" ++ query)%string
  else (v, query).

(** One fan-out task: nothing for a name the registry does not hold. *)
Definition task (w : World) (req : pb.QueryRequest) (format : Z) (v : string) : option (list Item) :=
  let '(name, text) := route v (pb.Query req) in
  p ← Providers w !! name;
  Some (providers.Query p text
          (bool_decide (length (pb.Providers req) = 1%nat))
          (pb.Exactsearch req) format).

(** [entries] once [wg.Wait()] returns: the results of the tasks, appended
    in the order the tasks reached the mutex. *)
Definition fanout (w : World) (req : pb.QueryRequest) (format : Z) : list Item :=
  concat (arrival w (omap (task w req format) (pb.Providers req))).

(** The slice expression [s[:hi]]; [None] is the run-time panic. *)
Definition slice_to {A : Type} (s : list A) (hi : Z) : option (list A) :=
  if (hi <? 0) || (Z.of_nat (length s) <? hi) then None
  else Some (take (Z.to_nat hi) s).

(** The result cap. *)
Definition capResults (entries : list Item) (maxresults : Z) : option (list Item) :=
  if Z.of_nat (length entries) >? maxresults then slice_to entries maxresults
  else Some entries.

Definition hideWebsearch (g : Globals) (req : pb.QueryRequest) (entries : list Item) : bool :=
  ((1 <? Z.of_nat (length (pb.Providers req)))
   && (MaxGlobalItemsToDisplayWebsearch g <? Z.of_nat (length entries)))
  && negb (WebsearchAlwaysShow g).

(** The test that makes the emission loop skip an item. *)
Definition suppressed (hide : bool) (wsprefix : string) (v : Item) : bool :=
  String.eqb (pb.Provider v) "websearch" && hide
  && negb (String.eqb (pb.Text v) wsprefix).

Inductive LoopEnd := LoopDone | LoopCancelled | LoopWriteError.

(** The envelope of one item. *)
Definition respOf (qqid : Z) (query : string) (v : Item) : pb.QueryResponse :=
  {| pb.Qid := int32 qqid; pb.RQuery := query; pb.Item := v |}.

(** The emission loop from iteration [i] on. *)
Fixpoint emit (w : World) (format qqid : Z) (query : string) (hide : bool)
    (wsprefix : string) (i : nat) (entries : list Item)
    : list Frame * list LogEntry * LoopEnd :=
  match entries with
  | [] => ([], [], LoopDone)
  | v :: rest =>
      if ctx_done w (S i) then ([], [], LoopCancelled)
      else if suppressed hide wsprefix v
      then emit w format qqid query hide wsprefix (S i) rest
      else
        let resp := respOf qqid query v in
        match Marshal w format resp with
        | None =>
            let '(fs, ls, e) := emit w format qqid query hide wsprefix (S i) rest in
            (fs, LogError "queryrequesthandler" "marshal" :: ls, e)
        | Some b =>
            if conn_Write w i then
              let '(fs, ls, e) := emit w format qqid query hide wsprefix (S i) rest in
              (dataFrame QueryItem resp b :: fs, ls, e)
            else ([], [LogError "queryrequesthandler" "write"], LoopWriteError)
        end
  end.

Section Handler.
Context `{GoStd}.

(** [entries] after [slices.SortFunc(entries, sortEntries)]. *)
Definition ranked (w : World) (req : pb.QueryRequest) (format : Z) : list Item :=
  SortFunc sortEntries (fanout w req format).

Definition providersInfo (req : pb.QueryRequest) (entries : list Item) : LogEntry :=
  LogInfo "providers" (String.concat "," (pb.Providers req)) (length entries).

(** [QueryRequest.Handle(format, cid, conn, data)].  The deferred
    [cancel()] runs on every exit after it was registered, the panic of
    the slice expression included. *)
Definition Handle (w : World) (g : Globals) (format cid : Z) (data : bytes) : Outcome :=
  let g1 := addQid g in
  let qqid := qid g1 in
  match Unmarshal w format data with
  | None =>
      {| frames := []; log := [LogError "queryhandler" "protobuf"];
         exit := Returned; closed := false; globals := g1 |}
  | Some req =>
      let wsprefix := wsprefixOf g1 req in
      let ctx := contexts g1 in
      let g2 := install g1 cid in
      let leave fs ls e :=
        {| frames := fs; log := ls; exit := e; closed := false;
           globals := cancel ctx g2 |} in
      if ctx_done w 0 then leave [] [] Returned
      else
        let entries := ranked w req format in
        if bool_decide (length entries = 0%nat) then
          leave [writeStatus QueryNoResults; writeStatus QueryDone]
                [providersInfo req entries] Returned
        else
          match capResults entries (pb.Maxresults req) with
          | None => leave [] [] Panicked
          | Some entries =>
              let hide := hideWebsearch g1 req entries in
              match emit w format qqid (pb.Query req) hide wsprefix 0 entries with
              | (fs, ls, LoopDone) =>
                  leave (fs ++ [writeStatus QueryDone])
                        (ls ++ [providersInfo req entries]) Returned
              | (fs, ls, _) => leave fs ls Returned
              end
          end
  end.

End Handler.

(** ** What a run writes *)

(** The item a written frame carries, if it is a data frame. *)
Definition itemOf (f : Frame) : option Item := pb.Item <$> envelope f.

Definition emittedItems (out : Outcome) : list Item := omap itemOf (frames out).

(** The frames of a run that bear the opcode [QueryItem]. *)
Definition queryItemFrames (out : Outcome) : list Frame :=
  filter (λ f, opcode f = QueryItem) (frames out).

(** [f] is the [QueryItem] frame the loop builds for [v]. *)
Definition itemFrame (w : World) (format qqid : Z) (query : string)
    (f : Frame) (v : Item) : Prop :=
  ∃ b, Marshal w format (respOf qqid query v) = Some b
       ∧ f = dataFrame QueryItem (respOf qqid query v) b.

(** The three ways a run ends its frames. *)
Inductive Tail : list Frame → Prop :=
  | Tail_none : Tail []
  | Tail_done : Tail [writeStatus QueryDone]
  | Tail_empty : Tail [writeStatus QueryNoResults; writeStatus QueryDone].

(** ** An executable standard library

    ASCII lowering and stdpp's merge sort meet the contracts of [GoStd];
    the concrete runs use them. *)

(** [cmp] read as an order: [a] may stand before [b]. *)
Definition cmp_le {A : Type} (cmp : A → A → Z) : relation A :=
  λ a b, cmp a b ≤ 0.

#[global] Instance cmp_le_dec {A : Type} (cmp : A → A → Z) :
  RelDecision (cmp_le cmp).
Proof. intros a b. unfold cmp_le. apply _. Defined.

#[global] Program Instance ascii_std : GoStd := {|
  ToLower := strings.ToLowerASCII;
  SortFunc := λ A cmp, merge_sort (cmp_le cmp)
|}.
Next Obligation. intros A cmp l. apply merge_sort_Permutation. Qed.
Next Obligation.
  intros A cmp l [Hanti Htrans].
  assert (Htr : Transitive (cmp_le cmp)) by (intros a b c; apply Htrans).
  assert (Hto : Total (cmp_le cmp)).
  { intros a b. unfold cmp_le. specialize (Hanti a b).
    destruct (Z.sgn_spec (cmp a b)) as [[? Hs]|[[? Hs]|[? Hs]]];
      destruct (Z.sgn_spec (cmp b a)) as [[? Ht]|[[? Ht]|[? Ht]]]; lia. }
  apply (StronglySorted_merge_sort (cmp_le cmp)).
Qed.

(** ** Concrete runs *)

Module Demo.

Definition item (provider text : string) (score : Z) : Item :=
  {| pb.Identifier := text; pb.Text := text; pb.Subtext := ""; pb.Icon := "";
     pb.Provider := provider; pb.Score := score;
     pb.Actions := []; pb.State := [] |}.

(** A provider with three entries, one of them the query it was handed. *)
Definition files : providers.Provider :=
  {| providers.Query := λ text _ _ _,
       [item "files" "beta" 5; item "files" "Alpha" 5; item "files" text 7] |}.

Definition websearch : providers.Provider :=
  {| providers.Query := λ _ _ _ _, [item "websearch" "Google" 10] |}.

Definition registry : gmap string providers.Provider :=
  list_to_map [("files", files); ("websearch", websearch); ("menus", files)].

(** A world whose codecs accept everything: every payload decodes to [req],
    tasks append in the order of the request, [done] is what [isCncld()]
    observes and [written] what [conn.Write] answers. *)
Definition world (req : pb.QueryRequest) (done written : nat → bool) : World :=
  {| proto_Unmarshal := λ _, Some req;
     json_Unmarshal := λ _, Some req;
     proto_Marshal := λ _, Some [10];
     json_Marshal := λ _, Some [123; 125];
     Providers := registry;
     arrival := λ chunks, chunks;
     ctx_done := done;
     conn_Write := written |}.

(** A world in which no payload decodes. *)
Definition deaf : World :=
  {| proto_Unmarshal := λ _, None;
     json_Unmarshal := λ _, None;
     proto_Marshal := λ _, Some [10];
     json_Marshal := λ _, Some [123; 125];
     Providers := registry;
     arrival := λ chunks, chunks;
     ctx_done := λ _, false;
     conn_Write := λ _, true |}.

Definition request (names : list string) (query : string) (maxresults : Z)
    : pb.QueryRequest :=
  {| pb.Providers := names; pb.Query := query;
     pb.Maxresults := maxresults; pb.Exactsearch := false |}.

(** The package-level variables of a process that has handled [n] queries
    and none on this connection. *)
Definition fresh (n : Z) : Globals :=
  {| queries := ∅; MaxGlobalItemsToDisplayWebsearch := 1;
     WebsearchAlwaysShow := false; WebsearchPrefixes := [("g ", "Google")];
     qid := n; contexts := 0; cancelled := ∅ |}.

Definition never : nat → bool := λ _, false.
Definition always : nat → bool := λ _, true.

End Demo.

(** ** Further code of the handler *)

(** The tasks of a fan-out finish in some order: what they appended is a
    rearrangement of their results, none lost and none repeated. *)
Definition fair (w : World) : Prop :=
  ∀ chunks : list (list Item), arrival w chunks ≡ₚ chunks.

(** What a call of [UpdateItem] does: it writes one frame, or gives up
    after logging the encoder's or the connection's error at debug level. *)
Inductive Update :=
  | Updated (f : Frame)
  | UpdateMarshalError
  | UpdateWriteError.

(** [UpdateItem(format, query, conn, item)]; [written] is whether
    [conn.Write] succeeds.  The envelope is built without a [Qid], which
    leaves it zero. *)
Definition UpdateItem (w : World) (format : Z) (query : string) (item : Item)
    (written : bool) : Update :=
  let req := {| pb.Qid := 0; pb.RQuery := query; pb.Item := item |} in
  match Marshal w format req with
  | None => UpdateMarshalError
  | Some b =>
      if written then Updated (dataFrame QueryAsyncItem req b)
      else UpdateWriteError
  end.

(** The cancel handles of the table belong to contexts created before, one
    context to a slot. *)
Definition handles_fresh (g : Globals) : Prop :=
  (∀ cid c, queries g !! cid = Some (Some c) → (c < contexts g)%nat)
  ∧ (∀ cid1 cid2 c,
       queries g !! cid1 = Some (Some c) →
       queries g !! cid2 = Some (Some c) → cid1 = cid2).

(** One request as the connection loop hands it to the handler, with the
    world it meets. *)
Record Call := {
  call_world : World;
  call_format : Z;
  call_cid : Z;
  call_data : bytes
}.

Section Serve.
Context `{GoStd}.

(** The package-level variables after the handler has served the calls one
    after the other. *)
Definition serve (g : Globals) (calls : list Call) : Globals :=
  foldl (λ g c, globals (Handle (call_world c) g (call_format c)
                           (call_cid c) (call_data c))) g calls.

End Serve.

(** ** Further concrete runs *)

Module Scenes.

(** A world like [Demo.world], without cancellation or refused writes,
    whose encoders refuse the items whose text is [bad]. *)
Definition picky (req : pb.QueryRequest) (bad : string) : World :=
  {| proto_Unmarshal := λ _, Some req;
     json_Unmarshal := λ _, Some req;
     proto_Marshal := λ resp,
       if String.eqb (pb.Text (pb.Item resp)) bad then None else Some [10];
     json_Marshal := λ resp,
       if String.eqb (pb.Text (pb.Item resp)) bad then None
       else Some [123; 125];
     Providers := Demo.registry;
     arrival := λ chunks, chunks;
     ctx_done := Demo.never;
     conn_Write := Demo.always |}.

End Scenes.

(** ** Package [client] *)

Module client.

(** Modelled from the spec: the constants [done] and [empty] of package
    [client], which are not among the sources: the opcodes of the status
    frames [QueryDone] and [QueryNoResults]. *)
Definition done : Z := 255.
Definition empty : Z := 254.

(** [binary.BigEndian.Uint32] on the four bytes [header[1:5]]. *)
Definition Uint32 (b0 b1 b2 b3 : Z) : Z :=
  (b0 mod 256) * 2 ^ 24 + (b1 mod 256) * 2 ^ 16 + (b2 mod 256) * 2 ^ 8
  + b3 mod 256.

(** What [Query] takes from its surroundings: [strconv.Atoi],
    [strings.EqualFold], the JSON codec on the two records, whether
    [net.Dial] and [conn.Write] succeed, and the bytes the server writes
    back before the stream ends. *)
Record Env := {
  Atoi : string → option Z;
  EqualFold : string → string → bool;
  MarshalRequest : pb.QueryRequest → option bytes;
  UnmarshalResponse : bytes → option pb.QueryResponse;
  MarshalResponse : pb.QueryResponse → option bytes;
  Dial : bool;
  Write : bool;
  incoming : bytes
}.

(** The ways [Query] panics. *)
Inductive Panic :=
  | PanicFields
  | PanicMaxresults
  | PanicNoProviders
  | PanicMarshal
  | PanicDial
  | PanicWrite
  | PanicRead
  | PanicPrefix
  | PanicSlice
  | PanicUnmarshal.

(** A line printed: the record as [fmt.Println] shows it, or its JSON. *)
Inductive Line :=
  | Plain (resp : pb.QueryResponse)
  | Json (out : bytes).

(** How the reading loop is left. *)
Inductive Stop :=
  | StopDone
  | StopEOF
  | StopPanic (why : Panic).

(** The head of [Query]: the request built from
    [providers;query;maxresults[;exact]], or the panic. *)
Definition request (e : Env) (data : string) : Panic + pb.QueryRequest :=
  let v := strings.Split data ";"%char in
  if (length v <? 3)%nat then inl PanicFields
  else
    match Atoi e (default "" (v !! 2%nat)) with
    | None => inl PanicMaxresults
    | Some maxresults =>
        let providers := strings.Split (default "" (v !! 0%nat)) ","%char in
        if bool_decide (length providers = 0%nat)
           || (bool_decide (length providers = 1%nat)
               && String.eqb (default "" (providers !! 0%nat)) "")
        then inl PanicNoProviders
        else
          let exact :=
            if (3 <? length v)%nat
            then EqualFold e (default "" (v !! 3%nat)) "true"
                 || String.eqb (default "" (v !! 3%nat)) "1"
            else false in
          inr {| pb.Providers := providers;
                 pb.Query := default "" (v !! 1%nat);
                 pb.Maxresults := int32 maxresults;
                 pb.Exactsearch := exact |}
    end.

(** The request frame: opcode 0, format 1, the length, the payload. *)
Definition requestFrame (b : bytes) : bytes :=
  [0; 1] ++ PutUint32 (uint32 (Z.of_nat (length b))) ++ b.

(** A line printed before what the rest of the loop does. *)
Definition printed (line : Line) (r : option (list Line * Stop))
    : option (list Line * Stop) :=
  match r with
  | Some (lines, stop) => Some (line :: lines, stop)
  | None => None
  end.

(** The reading loop of [Query] on the bytes still to come; [None] when
    [fuel] iterations do not end it.  Fewer than five bytes left make
    [Peek(5)] fail with [io.EOF]. *)
Fixpoint readLoop (e : Env) (async j : bool) (fuel : nat) (stream : bytes)
    : option (list Line * Stop) :=
  match fuel with
  | O => None
  | S fuel =>
      match stream with
      | code :: b0 :: b1 :: b2 :: b3 :: _ =>
          let length := Uint32 b0 b1 b2 b3 in
          let size := Z.to_nat (uint32 (5 + length)) in
          if (List.length stream <? size)%nat then Some ([], StopPanic PanicRead)
          else
            let msg := take size stream in
            let rest := drop size stream in
            if code =? done then
              if async then readLoop e async j fuel rest
              else Some ([], StopDone)
            else if code =? empty then readLoop e async j fuel rest
            else if negb (code =? 0) && negb (code =? 1)
            then Some ([], StopPanic PanicPrefix)
            else if (List.length msg <? 5)%nat
            then Some ([], StopPanic PanicSlice)
            else
              let payload := drop 5 msg in
              if bool_decide (List.length payload = 0%nat)
              then readLoop e async j fuel rest
              else
                match UnmarshalResponse e payload with
                | None => Some ([], StopPanic PanicUnmarshal)
                | Some resp =>
                    if j then
                      match MarshalResponse e resp with
                      | None => Some ([], StopPanic PanicMarshal)
                      | Some out =>
                          printed (Json out) (readLoop e async j fuel rest)
                      end
                    else printed (Plain resp) (readLoop e async j fuel rest)
                end
      | _ => Some ([], StopEOF)
      end
  end.

(** A call of [Query]: what was sent, what was printed and how it ended. *)
Record Run := {
  sent : bytes;
  lines : list Line;
  stop : Stop
}.

(** [Query(data, async, j)]. *)
Definition Query (e : Env) (data : string) (async j : bool) (fuel : nat)
    : option Run :=
  match request e data with
  | inl why => Some {| sent := []; lines := []; stop := StopPanic why |}
  | inr req =>
      match MarshalRequest e req with
      | None => Some {| sent := []; lines := []; stop := StopPanic PanicMarshal |}
      | Some b =>
          if negb (Dial e)
          then Some {| sent := []; lines := []; stop := StopPanic PanicDial |}
          else if negb (Write e)
          then Some {| sent := []; lines := []; stop := StopPanic PanicWrite |}
          else
            '(ls, st) ← readLoop e async j fuel (incoming e);
            Some {| sent := requestFrame b; lines := ls; stop := st |}
      end
  end.

End client.

(** The bytes a list of frames puts on the connection. *)
Definition wireOf (fs : list Frame) : bytes := concat (wire <$> fs).

(** The client decodes what the textual encoder of [w] produces, payloads
    are not empty and fit the length field with the header. *)
Definition decodes (w : World) (e : client.Env) : Prop :=
  ∀ resp b, json_Marshal w resp = Some b →
    b ≠ [] ∧ Z.of_nat (length b) + 5 < 2 ^ 32
    ∧ client.UnmarshalResponse e b = Some resp.

(** ** A world and a client that understand each other *)

#[global] Instance Item_eq_dec : EqDecision Item.
Proof. solve_decision. Defined.

#[global] Instance QueryResponse_eq_dec : EqDecision pb.QueryResponse.
Proof. solve_decision. Defined.

Module Wire.

(** A world like [Demo.world] whose encoders know the envelopes of [known]
    only: an envelope is encoded as its index in [known], in one byte
    after an opening one. *)
Definition encode (known : list pb.QueryResponse) (resp : pb.QueryResponse)
    : option bytes :=
  (λ i : nat, [123; Z.of_nat i]) <$> list_find (λ r, r = resp) known ≫= (λ p, Some p.1).

Definition decode (known : list pb.QueryResponse) (b : bytes)
    : option pb.QueryResponse :=
  match b with
  | [123; i] => known !! Z.to_nat i
  | _ => None
  end.

Definition world (req : pb.QueryRequest) (known : list pb.QueryResponse)
    : World :=
  {| proto_Unmarshal := λ _, Some req;
     json_Unmarshal := λ _, Some req;
     proto_Marshal := encode known;
     json_Marshal := encode known;
     Providers := Demo.registry;
     arrival := λ chunks, chunks;
     ctx_done := Demo.never;
     conn_Write := Demo.always |}.

(** The client of the command line, with a decimal [Atoi] for the numbers
    of one digit and an exact [EqualFold]. *)
Definition reader (known : list pb.QueryResponse) (stream : bytes)
    : client.Env :=
  {| client.Atoi := λ s,
       match s with
       | String c EmptyString =>
           let n := Z.of_N (N_of_ascii c) - 48 in
           if (0 <=? n) && (n <=? 9) then Some n else None
       | _ => None
       end;
     client.EqualFold := String.eqb;
     client.MarshalRequest := λ _, Some [123; 125];
     client.UnmarshalResponse := decode known;
     client.MarshalResponse := encode known;
     client.Dial := true;
     client.Write := true;
     client.incoming := stream |}.

End Wire.

(** The number of occurrences of the byte [c] in [s]. *)
Fixpoint countByte (s : string) (c : ascii) : nat :=
  match s with
  | EmptyString => 0
  | String x s' => (if Ascii.eqb x c then 1 else 0) + countByte s' c
  end.

(** ** Provider [websearch] *)

Module websearch.

Definition Name : string := "websearch".

Record Engine := {
  EName : string;
  Default : bool;
  Prefix : string;
  URL : string;
  EIcon : string
}.

(** [Config], with the fields of the embedded [common.Config] the provider
    reads. *)
Record Config := {
  Icon : string;
  MinScore : Z;
  NamePretty : string;
  Engines : list Engine;
  History : bool;
  HistoryWhenEmpty : bool;
  EnginesAsActions : bool;
  AlwaysShowDefault : bool;
  TextPrefix : string;
  Command : string
}.

(** The configuration [Setup] starts from, before [common.LoadConfig]. *)
Definition defaults : Config :=
  {| Icon := "applications-internet"; MinScore := 20; NamePretty := "";
     Engines := []; History := true; HistoryWhenEmpty := false;
     EnginesAsActions := false; AlwaysShowDefault := true;
     TextPrefix := "Search: "; Command := "xdg-open" |}.

Definition google : Engine :=
  {| EName := "Google"; Default := true; Prefix := "";
     URL := "https://www.google.com/search?q=%TERM%"; EIcon := "" |}.

Definition setDefault (v : Engine) : Engine :=
  {| EName := EName v; Default := true; Prefix := Prefix v;
     URL := URL v; EIcon := EIcon v |}.

(** The two [if]s on [len(config.Engines)]. *)
Definition normalize (engines : list Engine) : list Engine :=
  let engines := if bool_decide (length engines = 0%nat)
                 then engines ++ [google] else engines in
  match engines with
  | [v] => [setDefault v]
  | _ => engines
  end.

Definition withEngines (c : Config) (engines : list Engine) : Config :=
  {| Icon := Icon c; MinScore := MinScore c; NamePretty := NamePretty c;
     Engines := engines; History := History c;
     HistoryWhenEmpty := HistoryWhenEmpty c;
     EnginesAsActions := EnginesAsActions c;
     AlwaysShowDefault := AlwaysShowDefault c;
     TextPrefix := TextPrefix c; Command := Command c |}.

(** The package-level variables of the provider. *)
Record State := {
  config : Config;
  prefixes : gmap string nat;
  pretty : string
}.

(** What [Setup] leaves behind: the provider's variables and the three
    variables of package [handlers] it writes. *)
Record Published := {
  state : State;
  alwaysShow : bool;
  maxGlobal : Z;
  wsPrefixes : gmap string string
}.

(** The loop of [Setup] over the engines, from index [k] on. *)
Fixpoint register (k : nat) (engines : list Engine)
    (acc : Z * gmap string nat * gmap string string)
    : Z * gmap string nat * gmap string string :=
  match engines with
  | [] => acc
  | v :: rest =>
      let '(slots, pfx, ws) := acc in
      let slots := if Default v then slots + 1 else slots in
      let '(pfx, ws) :=
        if negb (String.eqb (Prefix v) "")
        then (<[Prefix v := k]> pfx, <[Prefix v := EName v]> ws)
        else (pfx, ws) in
      register (S k) rest (slots, pfx, ws)
  end.

(** The comparator [Setup] hands to [slices.SortFunc]. *)
Definition engineCmp (a b : Engine) : Z :=
  if Default a then -1 else if Default b then 1 else 0.

Section Setup.
Context `{GoStd}.

(** [Setup()]; [LoadConfig] stands for [common.LoadConfig(Name, config)],
    which is not among the sources, and the last three arguments are the
    values of [handlers.MaxGlobalItemsToDisplayWebsearch],
    [handlers.WebsearchPrefixes] and [prefixes] it finds. *)
Definition Setup (LoadConfig : Config → Config) (pretty0 : string)
    (slots0 : Z) (ws0 : gmap string string) (pfx0 : gmap string nat)
    : Published :=
  let c := LoadConfig defaults in
  let pretty := if negb (String.eqb (NamePretty c) "") then NamePretty c
                else pretty0 in
  let engines := normalize (Engines c) in
  let '(slots, pfx, ws) := register 0 engines (slots0, pfx0, ws0) in
  {| state := {| config := withEngines c (SortFunc engineCmp engines);
                 prefixes := pfx; pretty := pretty |};
     alwaysShow := AlwaysShowDefault c;
     maxGlobal := slots;
     wsPrefixes := ws |}.

End Setup.

(** What [Query] takes from packages that are not among the sources:
    the score of [common.FuzzyScore], [h.CalcUsageScore] and the constant
    [history.ActionDelete].  Both scores are [int32] in the source, which
    the uses below restore. *)
Record Env := {
  FuzzyScore : string → string → bool → Z;
  CalcUsageScore : string → string → Z;
  ActionDelete : string
}.

(** [strconv.Itoa] on an index. *)
Definition Itoa (k : nat) : string := NilZero.string_of_uint (Nat.to_uint k).

Definition iconOf (c : Config) (v : Engine) : string :=
  if String.eqb (EIcon v) "" then Icon c else EIcon v.

(** The first loop of [Query]: the first key of [prefixes], in the order
    [range] visits them, that the query starts with. *)
Definition matched (order : list string) (query : string) : string :=
  default "" (head (filter (λ k, strings.HasPrefix query k = true) order)).

(** The body of the loop of the single-provider branch, for engine [v] at
    index [k]: the entry, if it is kept. *)
Definition singleEntry (e : Env) (c : Config) (query : string) (exact : bool)
    (k : nat) (v : Engine) : option Item :=
  let identifier := Itoa k in
  let score0 := if negb (String.eqb query "")
                then int32 (FuzzyScore e query (EName v) exact)
                else int32 (100 - Z.of_nat k) in
  let counted :=
    History c
    && ((MinScore c <? score0)
        || (String.eqb query "" && HistoryWhenEmpty c)) in
  let usageScore :=
    if counted then int32 (CalcUsageScore e query identifier) else 0 in
  let marked := counted && negb (usageScore =? 0) in
  let score := if counted then int32 (score0 + usageScore) else score0 in
  if (MinScore c <? score) || String.eqb query "" then
    Some {| pb.Identifier := identifier; pb.Text := EName v;
            pb.Subtext := ""; pb.Icon := iconOf c v; pb.Provider := Name;
            pb.Score := score;
            pb.Actions := if marked then ["search"; ActionDelete e]
                          else ["search"];
            pb.State := if marked then ["history"] else [] |}
  else None.

(** The body of the second loop, for engine [v] at index [k]. *)
Definition defaultEntry (c : Config) (prefix : string) (k : nat) (v : Engine)
    : option Item :=
  if Default v || (negb (String.eqb prefix "") && String.eqb (Prefix v) prefix)
  then Some {| pb.Identifier := Itoa k; pb.Text := EName v; pb.Subtext := "";
               pb.Icon := iconOf c v; pb.Provider := Name;
               pb.Score := int32 (15 - Z.of_nat k);
               pb.Actions := ["search"]; pb.State := [] |}
  else None.

(** A loop [for k, v := range config.Engines] that appends the entries
    its body keeps. *)
Fixpoint collect (body : nat → Engine → option Item) (k : nat)
    (engines : list Engine) : list Item :=
  match engines with
  | [] => []
  | v :: rest =>
      match body k v with
      | Some e => e :: collect body (S k) rest
      | None => collect body (S k) rest
      end
  end.

(** [Query(conn, query, single, exact, _)]; [order] is the order in which
    [range prefixes] visits the keys. *)
Definition Query (e : Env) (st : State) (order : list string)
    (query : string) (single exact : bool) : list Item :=
  let c := config st in
  let prefix := matched order query in
  if EnginesAsActions c then
    [{| pb.Identifier := "websearch";
        pb.Text := (TextPrefix c ++ query)%string;
        pb.Subtext := ""; pb.Icon := Icon c; pb.Provider := Name;
        pb.Score := 1; pb.Actions := EName <$> Engines c; pb.State := [] |}]
  else
    let entries := if single
                   then collect (singleEntry e c query exact) 0 (Engines c)
                   else [] in
    if bool_decide (length entries = 0%nat) || negb single
    then entries ++ collect (defaultEntry c prefix) 0 (Engines c)
    else entries.

(** The provider as the registry holds it. *)
Definition provider (e : Env) (st : State) (order : list string)
    : providers.Provider :=
  {| providers.Query := λ text single exact _, Query e st order text single exact |}.

End websearch.

(** The variables of package [handlers] hold what [Setup] published; the
    map of prefixes is visited in some order. *)
Definition published (r : websearch.Published) (g : Globals) : Prop :=
  WebsearchAlwaysShow g = websearch.alwaysShow r
  ∧ MaxGlobalItemsToDisplayWebsearch g = websearch.maxGlobal r
  ∧ WebsearchPrefixes g ≡ₚ map_to_list (websearch.wsPrefixes r).

Module WebDemo.

(** Scores and history as a test double would give them. *)
Definition env : websearch.Env :=
  {| websearch.FuzzyScore := λ _ _ _, 50;
     websearch.CalcUsageScore := λ _ _, 0;
     websearch.ActionDelete := "delete" |}.

Definition youtube : websearch.Engine :=
  {| websearch.EName := "YouTube"; websearch.Default := false;
     websearch.Prefix := "yt ";
     websearch.URL := "https://www.youtube.com/results?search_query=%TERM%";
     websearch.EIcon := "" |}.

(** A configuration file that names two engines. *)
Definition load (c : websearch.Config) : websearch.Config :=
  websearch.withEngines c [websearch.google; youtube].

End WebDemo.

(** ** Provider [vscodeprojects] *)

Module vscodeprojects.

Definition Name : string := "vscodeprojects".
Definition ActionOpen : string := "open".
Definition ActionReveal : string := "reveal".

(** [projectEntry], without the raw JSON object, which [Query] does not
    read. *)
Record projectEntry := {
  Path : string;
  Label : string;
  Kind : string
}.

(** The fields of [Config] that [Query] reads. *)
Record Config := {
  Icon : string;
  MinScore : Z;
  MaxEntries : Z
}.

(** What [Query] takes from code that is not among the sources: the score
    and the start that [common.FuzzyScore] returns, both [int32], and
    [filepath.Base]. *)
Record Env := {
  FuzzyScore : string → string → bool → Z * Z;
  Base : string → string
}.

(** [max(a, b)]. *)
Definition max (a b : Z) : Z := if a >? b then a else b.

(** The loop of [fuzzyBest], with the best value, score and start so far. *)
Fixpoint fuzzyScan (e : Env) (q : string) (exact : bool) (vals : list string)
    (best : string) (scoreRes startRes : Z) : string * Z * Z :=
  match vals with
  | [] => (best, scoreRes, startRes)
  | v :: rest =>
      let '(score, start) := FuzzyScore e q v exact in
      if int32 score >? scoreRes
      then fuzzyScan e q exact rest v (int32 score) (int32 start)
      else fuzzyScan e q exact rest best scoreRes startRes
  end.

(** [fuzzyBest(q, vals, exact)]: the best value, its adjusted score and its
    start; [None] where the source returns [ok == false]. *)
Definition fuzzyBest (e : Env) (q : string) (vals : list string) (exact : bool)
    : option (string * Z * Z) :=
  let '(best, scoreRes, startRes) := fuzzyScan e q exact vals "" 0 0 in
  if scoreRes =? 0 then None
  else Some (best, max (int32 (scoreRes - startRes)) 10, startRes).

(** [fmt.Sprintf("%d", i)] on an index. *)
Definition index (i : nat) : string := NilZero.string_of_uint (Nat.to_uint i).

Definition textOf (e : Env) (p : projectEntry) : string :=
  if String.eqb (Label p) "" then Base e (Path p) else Label p.

(** The item built for entry [p] at index [i], its score settled. *)
Definition itemAt (e : Env) (c : Config) (query : string) (exact : bool)
    (i : nat) (p : projectEntry) : Item :=
  let text := textOf e p in
  let sub := Path p in
  let recency := int32 (1000000000 - Z.of_nat i) in
  let score :=
    if negb (String.eqb query "") then
      match fuzzyBest e query [text; sub] exact with
      | Some (_, score, _) => score
      | None => recency
      end
    else recency in
  {| pb.Identifier := index i; pb.Text := text; pb.Subtext := sub;
     pb.Icon := Icon c; pb.Provider := Name; pb.Score := score;
     pb.Actions := [ActionOpen; ActionReveal]; pb.State := [] |}.

(** The loop of [Query] from index [i] on, [n] items being in [res]
    already. *)
Fixpoint scan (e : Env) (c : Config) (query : string) (exact : bool)
    (i n : nat) (entries : list projectEntry) : list Item :=
  match entries with
  | [] => []
  | p :: rest =>
      let item := itemAt e c query exact i p in
      if String.eqb query "" || (MinScore c <? pb.Score item) then
        if MaxEntries c <=? Z.of_nat (S n) then [item]
        else item :: scan e c query exact (S i) (S n) rest
      else scan e c query exact (S i) n rest
  end.

(** [Query(conn, query, single, exact, format)] on the entries that
    [refreshIfNeeded] left in [entries]. *)
Definition Query (e : Env) (c : Config) (entries : list projectEntry)
    (query : string) (exact : bool) : list Item :=
  scan e c query exact 0 0 entries.

End vscodeprojects.

(** ** Provider [bluetooth] *)

Module bluetooth.

Definition Name : string := "bluetooth".
Definition ActionDisconnect : string := "disconnect".
Definition ActionConnect : string := "connect".
Definition ActionRemove : string := "remove".
Definition ActionPair : string := "pair".
Definition ActionTrust : string := "trust".
Definition ActionUntrust : string := "untrust".
Definition ActionFind : string := "find".

Record Device := {
  DName : string;
  Mac : string;
  DIcon : string;
  Paired : bool;
  Trusted : bool;
  Connected : bool
}.

(** The fields of [Config] that [Query] reads. *)
Record Config := {
  Icon : string;
  MinScore : Z
}.

(** The slices [s] and [a] that [Query] builds for a device; where the
    source assigns [append(s, ...)] to [a], the states come first in the
    actions. *)
Definition tokens (v : Device) : list string * list string :=
  if Paired v then
    let s := ["paired"] in
    let a := [ActionRemove] in
    if Trusted v then (s, a ++ [ActionUntrust])
    else
      let a := a ++ [ActionTrust] in
      if Connected v then (s, a ++ [ActionDisconnect])
      else
        let s := s ++ ["disconnected"] in
        (s, s ++ [ActionRemove; ActionConnect])
  else (["unpaired"], [ActionPair]).

(** The body of the loop of [Query] for device [v] at index [k];
    [FuzzyScore] is the score of [common.FuzzyScore]. *)
Definition entry (FuzzyScore : string → string → bool → Z) (c : Config)
    (query : string) (exact : bool) (k : nat) (v : Device) : option Item :=
  let '(s, a) := tokens v in
  let score := if negb (String.eqb query "")
               then int32 (FuzzyScore query (DName v) exact)
               else int32 (1000 - int32 (Z.of_nat k)) in
  if (MinScore c <? score) || String.eqb query "" then
    Some {| pb.Identifier := Mac v; pb.Text := DName v; pb.Subtext := Mac v;
            pb.Icon := DIcon v; pb.Provider := Name; pb.Score := score;
            pb.Actions := a; pb.State := s |}
  else None.

(** [Query(conn, query, _, exact, _)] on the devices that [getDevices]
    left in [devices]. *)
Definition Query (FuzzyScore : string → string → bool → Z) (c : Config)
    (devices : list Device) (query : string) (exact : bool) : list Item :=
  omap (λ kv, entry FuzzyScore c query exact kv.1 kv.2)
    (imap (λ k v, (k, v)) devices).

End bluetooth.

(** * Properties

    From here on: what holds of the definitions above. *)

(** ** Sorted lists *)

Lemma StronglySorted_mono {A : Type} (R S : relation A) (l : list A) :
  (∀ a b, R a b → S a b) → StronglySorted R l → StronglySorted S l.
Proof.
  intros HRS. induction 1 as [|a l _ IH Hall]; constructor; [done|].
  eapply Forall_impl; [exact Hall|]. intros b. apply HRS.
Qed.

Lemma StronglySorted_sublist {A : Type} (R : relation A) (k l : list A) :
  k `sublist_of` l → StronglySorted R l → StronglySorted R k.
Proof.
  induction 1 as [|x k l Hkl IH|x k l Hkl IH]; intros Hl.
  - constructor.
  - apply StronglySorted_cons in Hl as [Hall Hl].
    constructor; [by apply IH|].
    apply Forall_forall. intros y Hy. rewrite Forall_forall in Hall.
    apply Hall. by eapply elem_of_sublist.
  - apply StronglySorted_cons in Hl as [_ Hl]. by apply IH.
Qed.

Lemma filter_iff_in {A : Type} (P Q : A → Prop)
    `{!∀ x, Decision (P x), !∀ x, Decision (Q x)} (l : list A) :
  (∀ x, x ∈ l → P x ↔ Q x) → filter P l = filter Q l.
Proof.
  induction l as [|a l IH]; intros HPQ; [done|].
  rewrite !filter_cons.
  rewrite IH by (intros x Hx; apply HPQ; by right).
  destruct (decide (P a)) as [HP|HP], (decide (Q a)) as [HQ|HQ]; try done.
  - destruct HQ. apply HPQ; [left|done].
  - destruct HP. apply HPQ; [left|done].
Qed.

(** ** The byte order on strings *)

Section CompareFacts.

Lemma byteval_inj x y : strings.byteval x = strings.byteval y → x = y.
Proof.
  unfold strings.byteval. intros E.
  rewrite <- (ascii_N_embedding x), <- (ascii_N_embedding y). by rewrite E.
Qed.

Lemma Compare_range a b :
  strings.Compare a b = -1 ∨ strings.Compare a b = 0 ∨ strings.Compare a b = 1.
Proof.
  revert b. induction a as [|x a IH]; intros [|y b]; simpl; auto.
  destruct (N.ltb_spec (strings.byteval x) (strings.byteval y)); auto.
  destruct (N.ltb_spec (strings.byteval y) (strings.byteval x)); auto.
Qed.

Lemma Compare_antisym a b : strings.Compare b a = - strings.Compare a b.
Proof.
  revert b. induction a as [|x a IH]; intros [|y b]; simpl; try done.
  destruct (N.ltb_spec (strings.byteval x) (strings.byteval y));
    destruct (N.ltb_spec (strings.byteval y) (strings.byteval x));
    first [lia | apply IH].
Qed.

Lemma Compare_refl a : strings.Compare a a = 0.
Proof.
  induction a as [|x a IH]; simpl; [done|].
  by rewrite N.ltb_irrefl.
Qed.

Lemma Compare_eq a b : strings.Compare a b = 0 ↔ a = b.
Proof.
  split; [|intros ->; apply Compare_refl].
  revert b. induction a as [|x a IH]; intros [|y b]; simpl; try done.
  destruct (N.ltb_spec (strings.byteval x) (strings.byteval y)); [done|].
  destruct (N.ltb_spec (strings.byteval y) (strings.byteval x)); [done|].
  intros E. f_equal; [apply byteval_inj; lia | by apply IH].
Qed.

Lemma Compare_trans a b c :
  strings.Compare a b ≤ 0 → strings.Compare b c ≤ 0 → strings.Compare a c ≤ 0.
Proof.
  revert b c. induction a as [|x a IH]; intros [|y b] [|z c]; simpl;
    try done; try lia.
  destruct (N.ltb_spec (strings.byteval x) (strings.byteval y));
    destruct (N.ltb_spec (strings.byteval y) (strings.byteval x));
    destruct (N.ltb_spec (strings.byteval y) (strings.byteval z));
    destruct (N.ltb_spec (strings.byteval z) (strings.byteval y));
    destruct (N.ltb_spec (strings.byteval x) (strings.byteval z));
    destruct (N.ltb_spec (strings.byteval z) (strings.byteval x));
    first [lia | apply IH].
Qed.

End CompareFacts.

(** ** The comparator is a strict weak ordering *)

Section ComparatorFacts.
Context `{GoStd}.

Lemma sortEntries_le a b : sortEntries a b ≤ 0 ↔ ranked_before a b.
Proof.
  unfold sortEntries, ranked_before.
  destruct (Z.gtb_spec (pb.Score a) (pb.Score b));
    destruct (Z.gtb_spec (pb.Score b) (pb.Score a)); lia.
Qed.

Lemma sortEntries_lt a b :
  sortEntries a b < 0 ↔
  pb.Score b < pb.Score a ∨
  (pb.Score a = pb.Score b ∧
   strings.Compare (ToLower (pb.Text a)) (ToLower (pb.Text b)) < 0).
Proof.
  unfold sortEntries.
  destruct (Z.gtb_spec (pb.Score a) (pb.Score b));
    destruct (Z.gtb_spec (pb.Score b) (pb.Score a)); lia.
Qed.

Lemma sortEntries_eq a b :
  sortEntries a b = 0 ↔
  pb.Score a = pb.Score b ∧ ToLower (pb.Text a) = ToLower (pb.Text b).
Proof.
  rewrite <- Compare_eq. unfold sortEntries.
  destruct (Z.gtb_spec (pb.Score a) (pb.Score b));
    destruct (Z.gtb_spec (pb.Score b) (pb.Score a)); lia.
Qed.

Lemma sortEntries_antisym a b : sortEntries b a = - sortEntries a b.
Proof.
  unfold sortEntries.
  destruct (Z.gtb_spec (pb.Score a) (pb.Score b));
    destruct (Z.gtb_spec (pb.Score b) (pb.Score a));
    first [lia | apply Compare_antisym].
Qed.

Lemma sortEntries_trans a b c :
  sortEntries a b ≤ 0 → sortEntries b c ≤ 0 → sortEntries a c ≤ 0.
Proof.
  rewrite !sortEntries_le. unfold ranked_before.
  intros [?|[? Hab]] [?|[? Hbc]]; try (left; lia).
  right. split; [lia|]. eapply Compare_trans; eauto.
Qed.

Lemma sortEntries_StrictWeak : StrictWeak sortEntries.
Proof.
  split.
  - intros a b. rewrite sortEntries_antisym. apply Z.sgn_opp.
  - apply sortEntries_trans.
Qed.

Lemma ranked_sorted w req format :
  StronglySorted ranked_before (ranked w req format).
Proof.
  unfold ranked.
  eapply StronglySorted_mono;
    [|apply SortFunc_sorted, sortEntries_StrictWeak].
  intros a b. apply sortEntries_le.
Qed.

End ComparatorFacts.

(** ** The emission loop *)

Section EmitFacts.
Variables (w : World) (format qqid : Z) (query : string).
Variables (hide : bool) (wsprefix : string).

Local Abbreviation emit' := (emit w format qqid query hide wsprefix).
Local Abbreviation itemFrame' := (itemFrame w format qqid query).

Lemma emit_kept entries i :
  ∃ kept, kept `sublist_of` entries
    ∧ Forall (λ v, suppressed hide wsprefix v = false) kept
    ∧ Forall2 itemFrame' (emit' i entries).1.1 kept.
Proof.
  revert i. induction entries as [|v rest IH]; intros i; simpl.
  { exists []. repeat split; constructor. }
  destruct (ctx_done w (S i)).
  { exists []. repeat split; [apply sublist_nil_l|constructor..]. }
  destruct (suppressed hide wsprefix v) eqn:Hs.
  { destruct (IH (S i)) as (kept & Hsub & Hall & Hfs).
    exists kept. split; [by apply sublist_cons|done]. }
  destruct (Marshal w format (respOf qqid query v)) as [b|] eqn:Hm.
  - destruct (conn_Write w i).
    + destruct (IH (S i)) as (kept & Hsub & Hall & Hfs).
      destruct (emit' (S i) rest) as [[fs ls] e]. simpl in *.
      exists (v :: kept). split; [by apply sublist_skip|].
      split; [by constructor|].
      constructor; [by exists b|done].
    + exists []. repeat split; [apply sublist_nil_l|constructor..].
  - destruct (IH (S i)) as (kept & Hsub & Hall & Hfs).
    destruct (emit' (S i) rest) as [[fs ls] e]. simpl in *.
    exists kept. split; [by apply sublist_cons|done].
Qed.

(** An observed cancellation ends the loop: what was written belongs to
    the iterations before it. *)
Lemma emit_cancelled entries i k :
  (k < length entries)%nat → ctx_done w (S (i + k)) = true →
  (emit' i entries).2 ≠ LoopDone
  ∧ ∃ kept, kept `sublist_of` take k entries
      ∧ Forall2 itemFrame' (emit' i entries).1.1 kept.
Proof.
  revert i k. induction entries as [|v rest IH]; intros i k Hk Hc; simpl in *.
  { lia. }
  destruct k as [|k].
  { rewrite Nat.add_0_r in Hc. rewrite Hc. simpl.
    split; [done|]. exists []. split; constructor. }
  destruct (ctx_done w (S i)).
  { split; [done|]. exists []. split; [apply sublist_nil_l|constructor]. }
  assert (Hk' : (k < length rest)%nat) by lia.
  assert (Hc' : ctx_done w (S (S i + k)) = true).
  { by replace (S i + k)%nat with (i + S k)%nat by lia. }
  destruct (IH (S i) k Hk' Hc') as (Hne & kept & Hsub & Hfs).
  destruct (suppressed hide wsprefix v).
  { split; [done|]. exists kept. split; [by apply sublist_cons|done]. }
  destruct (Marshal w format (respOf qqid query v)) as [b|] eqn:Hm.
  - destruct (conn_Write w i).
    + destruct (emit' (S i) rest) as [[fs ls] e]. simpl in *.
      split; [done|]. exists (v :: kept).
      split; [by apply sublist_skip|]. constructor; [by exists b|done].
    + split; [done|]. exists []. split; [apply sublist_nil_l|constructor].
  - destruct (emit' (S i) rest) as [[fs ls] e]. simpl in *.
    split; [done|]. exists kept. split; [by apply sublist_cons|done].
Qed.

(** With no cancellation observed and every write accepted the loop runs
    to its end and writes a frame for every item that is neither
    suppressed nor refused by the encoder. *)
Lemma emit_quiet entries i :
  (∀ k, ctx_done w (S k) = false) → (∀ k, conn_Write w k = true) →
  (emit' i entries).2 = LoopDone
  ∧ Forall2 itemFrame' (emit' i entries).1.1
      (filter (λ v, suppressed hide wsprefix v = false
                    ∧ is_Some (Marshal w format (respOf qqid query v)))
              entries).
Proof.
  intros Hc Hw. revert i.
  induction entries as [|v rest IH]; intros i; simpl.
  { split; [done|constructor]. }
  rewrite Hc, Hw. destruct (IH (S i)) as [He Hfs].
  destruct (suppressed hide wsprefix v) eqn:Hs.
  { split; [done|]. rewrite filter_cons_False; [done|]. intros [? _]. congruence. }
  destruct (Marshal w format (respOf qqid query v)) as [b|] eqn:Hm.
  - destruct (emit' (S i) rest) as [[fs ls] e]. simpl in *.
    split; [done|]. rewrite filter_cons_True; [|by split; [|exists b]].
    constructor; [by exists b|done].
  - destruct (emit' (S i) rest) as [[fs ls] e]. simpl in *.
    split; [done|]. rewrite filter_cons_False; [done|].
    intros [_ [? ?]]. congruence.
Qed.

Lemma itemFrame_items fs kept :
  Forall2 itemFrame' fs kept →
  omap itemOf fs = kept ∧ filter (λ f, opcode f = QueryItem) fs = fs
  ∧ Forall (λ f, ∃ v, envelope f = Some (respOf qqid query v)) fs.
Proof.
  induction 1 as [|f v fs kept (b & _ & ->) _ (IH1 & IH2 & IH3)]; [done|].
  split; [by rewrite <- IH1|].
  split; [rewrite filter_cons_True; [by rewrite IH2|done]|].
  constructor; [by exists v|done].
Qed.

End EmitFacts.

Lemma Tail_items tail : Tail tail → omap itemOf tail = [].
Proof. by destruct 1. Qed.

Lemma Tail_envelope tail f : Tail tail → f ∈ tail → envelope f = None.
Proof.
  destruct 1; intros Hf;
    repeat (apply elem_of_cons in Hf as [->|Hf]; [done|]);
    by apply elem_of_nil in Hf.
Qed.

Lemma Tail_no_item tail :
  Tail tail → filter (λ f, opcode f = QueryItem) tail = [].
Proof. by destruct 1. Qed.

(** ** The result cap *)

Lemma slice_to_Some {A : Type} (s : list A) (hi : Z) :
  0 ≤ hi → hi ≤ Z.of_nat (length s) →
  slice_to s hi = Some (take (Z.to_nat hi) s).
Proof.
  intros Hlo Hhi. unfold slice_to.
  destruct (Z.ltb_spec hi 0); [lia|].
  destruct (Z.ltb_spec (Z.of_nat (length s)) hi); [lia|done].
Qed.

Lemma slice_to_negative {A : Type} (s : list A) (hi : Z) :
  hi < 0 → slice_to s hi = None.
Proof.
  intros Hlo. unfold slice_to. by destruct (Z.ltb_spec hi 0); [|lia].
Qed.

Lemma capResults_sublist entries maxresults capped :
  capResults entries maxresults = Some capped → capped `sublist_of` entries.
Proof.
  unfold capResults, slice_to.
  destruct (Z.of_nat (length entries) >? maxresults).
  - destruct (_ || _); [done|]. intros [= <-]. apply sublist_take.
  - by intros [= <-].
Qed.

Lemma capResults_nonneg entries maxresults :
  0 ≤ maxresults →
  capResults entries maxresults =
    Some (if Z.of_nat (length entries) >? maxresults
          then take (Z.to_nat maxresults) entries else entries).
Proof.
  intros Hlo. unfold capResults.
  destruct (Z.gtb_spec (Z.of_nat (length entries)) maxresults); [|done].
  apply slice_to_Some; lia.
Qed.

Lemma capResults_negative entries maxresults :
  maxresults < 0 → capResults entries maxresults = None.
Proof.
  intros Hlo. unfold capResults.
  destruct (Z.gtb_spec (Z.of_nat (length entries)) maxresults); [|lia].
  by apply slice_to_negative.
Qed.

(** ** The shape of every run *)

Section HandleFacts.
Context `{GoStd}.
Variables (w : World) (g : Globals) (format cid : Z) (data : bytes).

Local Abbreviation out := (Handle w g format cid data).

Lemma Handle_decode_error :
  Unmarshal w format data = None →
  out = {| frames := []; log := [LogError "queryhandler" "protobuf"];
           exit := Returned; closed := false; globals := addQid g |}.
Proof. intros Hd. unfold Handle. by rewrite Hd. Qed.

Lemma Handle_barrier req :
  Unmarshal w format data = Some req → ctx_done w 0 = true →
  frames out = [] ∧ exit out = Returned.
Proof. intros Hd Hc. unfold Handle. by rewrite Hd, Hc. Qed.

Lemma Handle_no_results req :
  Unmarshal w format data = Some req → ctx_done w 0 = false →
  ranked w req format = [] →
  frames out = [writeStatus QueryNoResults; writeStatus QueryDone]
  ∧ exit out = Returned.
Proof. intros Hd Hc Hr. unfold Handle. by rewrite Hd, Hc, Hr. Qed.

Lemma Handle_panic req :
  Unmarshal w format data = Some req → ctx_done w 0 = false →
  ranked w req format ≠ [] →
  capResults (ranked w req format) (pb.Maxresults req) = None →
  frames out = [] ∧ exit out = Panicked.
Proof.
  intros Hd Hc Hr Hcap. unfold Handle. rewrite Hd, Hc, Hcap.
  rewrite bool_decide_eq_false_2; [done|].
  by destruct (ranked w req format).
Qed.

(** The run that reaches the emission loop. *)
Lemma Handle_emit req capped :
  Unmarshal w format data = Some req → ctx_done w 0 = false →
  ranked w req format ≠ [] →
  capResults (ranked w req format) (pb.Maxresults req) = Some capped →
  let run := emit w format (qid (addQid g)) (pb.Query req)
               (hideWebsearch g req capped) (wsprefixOf g req) 0 capped in
  frames out = run.1.1 ++ (if run.2 is LoopDone then [writeStatus QueryDone] else [])
  ∧ exit out = Returned.
Proof.
  intros Hd Hc Hr Hcap. unfold Handle. rewrite Hd, Hc, Hcap.
  rewrite bool_decide_eq_false_2; [|by destruct (ranked w req format)].
  change (hideWebsearch (addQid g) req capped) with (hideWebsearch g req capped).
  change (wsprefixOf (addQid g) req) with (wsprefixOf g req).
  simpl.
  destruct (emit _ _ _ _ _ _ _ _) as [[fs ls] []]; simpl;
    by rewrite ?app_nil_r.
Qed.

Lemma Handle_exit_Returned req :
  Unmarshal w format data = Some req → 0 ≤ pb.Maxresults req →
  exit out = Returned.
Proof.
  intros Hd Hmax. unfold Handle. rewrite Hd.
  destruct (ctx_done w 0); [done|].
  case_bool_decide; [done|].
  rewrite capResults_nonneg by done.
  by destruct (emit _ _ _ _ _ _ _ _) as [[fs ls] []].
Qed.

(** Every run writes item frames for a sub-sequence of the ranked entries,
    then one of the three tails. *)
Lemma Handle_shape req :
  Unmarshal w format data = Some req →
  ∃ fs kept tail,
    frames out = fs ++ tail ∧ Tail tail
    ∧ Forall2 (itemFrame w format (qid (addQid g)) (pb.Query req)) fs kept
    ∧ kept `sublist_of` ranked w req format
    ∧ (tail = [writeStatus QueryNoResults; writeStatus QueryDone] →
       ranked w req format = [] ∧ ctx_done w 0 = false)
    ∧ ∀ capped,
        capResults (ranked w req format) (pb.Maxresults req) = Some capped →
        kept `sublist_of` capped
        ∧ Forall (λ v, suppressed (hideWebsearch g req capped)
                         (wsprefixOf g req) v = false) kept.
Proof.
  intros Hd.
  destruct (ctx_done w 0) eqn:Hc.
  { destruct (Handle_barrier req Hd Hc) as [-> _].
    exists [], [], []. repeat split; try constructor; try apply sublist_nil_l; done. }
  destruct (decide (ranked w req format = [])) as [Hr|Hr].
  { destruct (Handle_no_results req Hd Hc Hr) as [-> _].
    exists [], [], [writeStatus QueryNoResults; writeStatus QueryDone].
    repeat split; try constructor; try apply sublist_nil_l; done. }
  destruct (capResults (ranked w req format) (pb.Maxresults req))
    as [capped|] eqn:Hcap.
  - destruct (Handle_emit req capped Hd Hc Hr Hcap) as [-> _].
    destruct (emit_kept w format (qid (addQid g)) (pb.Query req)
                (hideWebsearch g req capped) (wsprefixOf g req) capped 0%nat)
      as (kept & Hsub & Hall & Hfs).
    eexists _, kept, _. split; [done|].
    split; [destruct (emit _ _ _ _ _ _ _ _).2; constructor|].
    split; [done|].
    split; [etrans; [done|by eapply capResults_sublist]|].
    split; [by destruct (emit _ _ _ _ _ _ _ _).2|].
    by intros ? [= <-].
  - destruct (Handle_panic req Hd Hc Hr Hcap) as [-> _].
    exists [], [], []. repeat split; try constructor; try apply sublist_nil_l; done.
Qed.

Lemma Handle_decode_error_frames :
  Unmarshal w format data = None → frames out = [].
Proof. intros Hd. by rewrite Handle_decode_error. Qed.

(** The items of a run, in the order written, are a sub-sequence of the
    ranked entries. *)
Lemma emittedItems_sublist req :
  Unmarshal w format data = Some req →
  emittedItems out `sublist_of` ranked w req format.
Proof.
  intros Hd.
  destruct (Handle_shape req Hd) as (fs & kept & tail & Hf & Ht & Hfs & Hsub & _).
  unfold emittedItems. rewrite Hf, omap_app, (Tail_items _ Ht), app_nil_r.
  by destruct (itemFrame_items _ _ _ _ _ _ Hfs) as [-> _].
Qed.

End HandleFacts.

(** ** Ranking, cancellation and suppression *)

Lemma emittedItems_queryItemFrames `{GoStd} w g format cid data :
  omap itemOf (queryItemFrames (Handle w g format cid data))
    = emittedItems (Handle w g format cid data)
  ∧ length (queryItemFrames (Handle w g format cid data))
    = length (emittedItems (Handle w g format cid data)).
Proof.
  unfold queryItemFrames, emittedItems.
  destruct (Unmarshal w format data) as [req|] eqn:Hd.
  - destruct (Handle_shape w g format cid data req Hd)
      as (fs & kept & tail & -> & Ht & Hfs & _).
    destruct (itemFrame_items _ _ _ _ _ _ Hfs) as (Hk & Hq & _).
    rewrite filter_app, Hq, (Tail_no_item _ Ht), app_nil_r.
    rewrite omap_app, (Tail_items _ Ht), app_nil_r, Hk.
    split; [done|]. by eapply Forall2_length.
  - by rewrite Handle_decode_error_frames.
Qed.

(** C1: the items of the [QueryItem] frames of every run appear in
    non-increasing score order, and those of equal score in non-decreasing
    byte order of their lowered text; and [sortEntries] is the three-way
    comparison of exactly that order: negative when [a] has the greater
    score or the same score and the smaller lowered text, zero when both
    agree, sign-reversing when its arguments are swapped, and transitive. *)
Theorem C1_emission_order `{GoStd} (w : World) (g : Globals)
    (format cid : Z) (data : bytes) :
  StronglySorted
    (λ a b : Item,
       pb.Score b ≤ pb.Score a
       ∧ (pb.Score a = pb.Score b →
          strings.Compare (ToLower (pb.Text a)) (ToLower (pb.Text b)) ≤ 0))
    (omap itemOf (queryItemFrames (Handle w g format cid data)))
  ∧ (∀ a b : Item,
       sortEntries a b < 0 ↔
       pb.Score b < pb.Score a
       ∨ (pb.Score a = pb.Score b
          ∧ strings.Compare (ToLower (pb.Text a)) (ToLower (pb.Text b)) < 0))
  ∧ (∀ a b : Item,
       sortEntries a b = 0 ↔
       pb.Score a = pb.Score b ∧ ToLower (pb.Text a) = ToLower (pb.Text b))
  ∧ (∀ a b : Item, sortEntries b a = - sortEntries a b)
  ∧ (∀ a b c : Item,
       sortEntries a b ≤ 0 → sortEntries b c ≤ 0 → sortEntries a c ≤ 0).
Proof.
  split;
    [|split; [exact sortEntries_lt|];
      split; [exact sortEntries_eq|];
      split; [exact sortEntries_antisym|exact sortEntries_trans]].
  destruct (emittedItems_queryItemFrames w g format cid data) as [-> _].
  destruct (Unmarshal w format data) as [req|] eqn:Hd.
  - eapply StronglySorted_mono;
      [|eapply StronglySorted_sublist;
          [by apply emittedItems_sublist|apply ranked_sorted]].
    intros a b [?|[? ?]]; split; lia.
  - unfold emittedItems. rewrite Handle_decode_error_frames by done.
    constructor.
Qed.

(** C2: a run whose cancellation signal is observed after the barrier
    writes no frame at all; and when the check at the head of iteration [k]
    of the emission loop observes it, every frame of the run is a
    [QueryItem] frame of one of the [k] entries before it, so neither a
    later item nor [QueryDone] or [QueryNoResults] is written. *)
Theorem C2_cancellation_silences `{GoStd} (w : World) (g : Globals)
    (format cid : Z) (data : bytes) :
  (ctx_done w 0 = true → frames (Handle w g format cid data) = [])
  ∧ ∀ req capped k,
      Unmarshal w format data = Some req →
      ctx_done w 0 = false →
      ranked w req format ≠ [] →
      capResults (ranked w req format) (pb.Maxresults req) = Some capped →
      (k < length capped)%nat →
      ctx_done w (S k) = true →
      Forall (λ f, opcode f = QueryItem
                   ∧ ∃ v, itemOf f = Some v ∧ v ∈ take k capped)
        (frames (Handle w g format cid data))
      ∧ (length (frames (Handle w g format cid data)) ≤ k)%nat.
Proof.
  split.
  - intros Hc. destruct (Unmarshal w format data) as [req|] eqn:Hd.
    + by destruct (Handle_barrier w g format cid data req Hd Hc).
    + by apply Handle_decode_error_frames.
  - intros req capped k Hd Hc Hr Hcap Hk Hck.
    destruct (Handle_emit w g format cid data req capped Hd Hc Hr Hcap)
      as [-> _].
    destruct (emit_cancelled w format (qid (addQid g)) (pb.Query req)
                (hideWebsearch g req capped) (wsprefixOf g req) capped 0 k
                Hk Hck) as (Hne & kept & Hsub & Hfs).
    destruct (emit _ _ _ _ _ _ _ _) as [[fs ls] e]. simpl in *.
    assert (Htail : (if e is LoopDone then [writeStatus QueryDone] else [])
                    = []) by by destruct e.
    rewrite Htail, app_nil_r. split.
    + clear Htail Hne. induction Hfs as [|f v fs kept (b & _ & ->) _ IH];
        constructor.
      * split; [done|]. exists v. split; [done|].
        eapply elem_of_sublist; [|exact Hsub]. left.
      * apply IH. etrans; [|exact Hsub]. by apply sublist_cons.
    + rewrite (Forall2_length _ _ _ Hfs).
      etrans; [by apply sublist_length|].
      rewrite length_take. lia.
Qed.

Lemma C2_cancellation_silences_witness :
  let req := Demo.request ["files"] "q" 3 in
  let w := Demo.world req (λ n, bool_decide (n = 2%nat)) Demo.always in
  Forall (λ f, opcode f = QueryItem
               ∧ ∃ v, itemOf f = Some v
                      ∧ v ∈ take 1 [Demo.item "files" "q" 7;
                                    Demo.item "files" "Alpha" 5;
                                    Demo.item "files" "beta" 5])
    (frames (Handle w (Demo.fresh 0) 1 7 []))
  ∧ (length (frames (Handle w (Demo.fresh 0) 1 7 [])) ≤ 1)%nat.
Proof.
  intros req w.
  apply (proj2 (C2_cancellation_silences w (Demo.fresh 0) 1 7 []) req
           [Demo.item "files" "q" 7; Demo.item "files" "Alpha" 5;
            Demo.item "files" "beta" 5] 1%nat).
  - reflexivity.
  - reflexivity.
  - vm_compute. discriminate.
  - vm_compute. reflexivity.
  - simpl. lia.
  - reflexivity.
Defined.

(** C3, as the code has it: the flag is computed from the number of
    entries left after the result cap, not from the number merged. With
    [capped] the entries after the cap, the flag is true exactly when more
    than one provider was requested, [capped] is longer than
    [MaxGlobalItemsToDisplayWebsearch] and [WebsearchAlwaysShow] is off;
    while it is true no frame carries a websearch item whose text differs
    from the hint [wsprefixOf]; and a run that is not cancelled, whose
    writes succeed and whose items all encode, writes exactly the entries
    of [capped] without the websearch items the flag suppresses. *)
Theorem C3_websearch_suppression `{GoStd} (w : World) (g : Globals)
    (format cid : Z) (data : bytes) (req : pb.QueryRequest)
    (capped : list Item) :
  Unmarshal w format data = Some req →
  capResults (ranked w req format) (pb.Maxresults req) = Some capped →
  (hideWebsearch g req capped = true ↔
     (1 < length (pb.Providers req))%nat
     ∧ MaxGlobalItemsToDisplayWebsearch g < Z.of_nat (length capped)
     ∧ WebsearchAlwaysShow g = false)
  ∧ (hideWebsearch g req capped = true →
     ∀ v, v ∈ emittedItems (Handle w g format cid data) →
          pb.Provider v = "websearch" → pb.Text v = wsprefixOf g req)
  ∧ ((∀ k, ctx_done w k = false) → (∀ k, conn_Write w k = true) →
     (∀ v, v ∈ capped →
           is_Some (Marshal w format (respOf (qid (addQid g)) (pb.Query req) v))) →
     emittedItems (Handle w g format cid data)
     = filter (λ v, ¬ (hideWebsearch g req capped = true
                        ∧ pb.Provider v = "websearch"
                        ∧ pb.Text v ≠ wsprefixOf g req)) capped).
Proof.
  intros Hd Hcap. split; [|split].
  - unfold hideWebsearch. rewrite !andb_true_iff, negb_true_iff, !Z.ltb_lt.
    split; [intros [[? ?] ?]|intros (? & ? & ?)]; repeat split; first [lia|done].
  - intros Hhide v Hv Hp.
    destruct (Handle_shape w g format cid data req Hd)
      as (fs & kept & tail & Hf & Ht & Hfs & _ & _ & Hk).
    destruct (Hk capped Hcap) as [_ Hall].
    unfold emittedItems in Hv.
    rewrite Hf, omap_app, (Tail_items _ Ht), app_nil_r in Hv.
    destruct (itemFrame_items _ _ _ _ _ _ Hfs) as [Hi _]. rewrite Hi in Hv.
    rewrite Forall_forall in Hall. specialize (Hall v Hv).
    unfold suppressed in Hall. rewrite Hhide, Hp in Hall. simpl in Hall.
    apply negb_false_iff in Hall. by apply String.eqb_eq.
  - intros Hc Hw Hm. unfold emittedItems.
    destruct (decide (ranked w req format = [])) as [Hr|Hr].
    { destruct (Handle_no_results w g format cid data req Hd (Hc 0%nat) Hr)
        as [-> _].
      apply capResults_sublist in Hcap. rewrite Hr in Hcap.
      by apply sublist_nil_r in Hcap as ->. }
    destruct (Handle_emit w g format cid data req capped Hd (Hc 0%nat) Hr Hcap)
      as [-> _].
    destruct (emit_quiet w format (qid (addQid g)) (pb.Query req)
                (hideWebsearch g req capped) (wsprefixOf g req) capped 0
                (λ k, Hc (S k)) Hw) as [-> Hfs].
    destruct (itemFrame_items _ _ _ _ _ _ Hfs) as [Hi _].
    rewrite omap_app, Hi, app_nil_r.
    apply filter_iff_in. intros v Hv. unfold suppressed. split.
    + intros [Hs _] (Hh & Hp & Ht). rewrite Hh in Hs.
      apply String.eqb_eq in Hp. rewrite Hp in Hs. simpl in Hs.
      apply negb_false_iff, String.eqb_eq in Hs. done.
    + intros Hn. split; [|by apply Hm].
      destruct (hideWebsearch g req capped); [|by rewrite andb_false_r].
      destruct (String.eqb_spec (pb.Provider v) "websearch") as [Hp|]; [|done].
      destruct (String.eqb_spec (pb.Text v) (wsprefixOf g req)) as [|Ht]; [done|].
      destruct Hn. done.
Qed.

Lemma C3_websearch_suppression_witness :
  let req := Demo.request ["files"; "websearch"] "q" 3 in
  let w := Demo.world req Demo.never Demo.always in
  hideWebsearch (Demo.fresh 0) req
    [Demo.item "websearch" "Google" 10; Demo.item "files" "q" 7;
     Demo.item "files" "Alpha" 5] = true
  ∧ ∀ v, v ∈ emittedItems (Handle w (Demo.fresh 0) 1 7 []) →
         pb.Provider v = "websearch" → pb.Text v = "".
Proof.
  intros req w.
  assert (Hc : capResults (ranked w req 1) (pb.Maxresults req)
               = Some [Demo.item "websearch" "Google" 10;
                       Demo.item "files" "q" 7; Demo.item "files" "Alpha" 5])
    by (vm_compute; reflexivity).
  pose proof (C3_websearch_suppression w (Demo.fresh 0) 1 7 [] req _
                eq_refl Hc) as (_ & Hsafe & _).
  split; [reflexivity|]. apply Hsafe. reflexivity.
Defined.

(** The flag as the specification words it, from the number of merged
    items, is true in this run of two providers and four merged items
    capped at one, and yet the websearch item is written: after the cap
    one entry is left, which does not exceed the one slot. *)
Lemma C3_counterexample :
  let req := Demo.request ["files"; "websearch"] "q" 1 in
  let w := Demo.world req Demo.never Demo.always in
  let g := Demo.fresh 0 in
  ((1 < length (pb.Providers req))%nat
   ∧ MaxGlobalItemsToDisplayWebsearch g < Z.of_nat (length (fanout w req 1))
   ∧ WebsearchAlwaysShow g = false)
  ∧ emittedItems (Handle w g 1 7 []) = [Demo.item "websearch" "Google" 10]
  ∧ pb.Provider (Demo.item "websearch" "Google" 10) = "websearch"
  ∧ pb.Text (Demo.item "websearch" "Google" 10) ≠ wsprefixOf g req.
Proof.
  intros req w g. split; [|split; [|split]].
  - vm_compute. repeat split; lia.
  - vm_compute. reflexivity.
  - reflexivity.
  - vm_compute. discriminate.
Qed.

(** ** Routing *)

Lemma prefix_app (p s : string) :
  String.prefix p s = true → ∃ r, s = (p ++ r)%string.
Proof.
  revert s. induction p as [|a p IH]; intros s Hp.
  { by exists s. }
  destruct s as [|b s]; simpl in Hp; [done|].
  destruct (ascii_dec a b) as [->|]; [|done].
  destruct (IH s Hp) as [r ->]. by exists r.
Qed.

Lemma prefix_app_true (p r : string) : String.prefix p (p ++ r) = true.
Proof.
  induction p as [|a p IH]; simpl; [by destruct r|].
  by destruct (ascii_dec a a).
Qed.

Lemma Split_nonempty (s : string) (sep : ascii) :
  ∃ p ps, strings.Split s sep = p :: ps.
Proof.
  destruct s as [|c s]; simpl; [by eexists _, _|].
  destruct (Ascii.eqb c sep); [by eexists _, _|].
  destruct (strings.Split s sep); by eexists _, _.
Qed.

Lemma Split_no_sep (s : string) (sep : ascii) :
  strings.ContainsByte s sep = false → strings.Split s sep = [s].
Proof.
  induction s as [|c s IH]; simpl; [done|].
  intros [Hc Hs]%orb_false_iff. by rewrite Hc, (IH Hs).
Qed.

Lemma Split_menus (menu : string) :
  strings.Split ("menus:" ++ menu) ":" = "menus" :: strings.Split menu ":".
Proof.
  change ("menus:" ++ menu)%string
    with (String "m" (String "e" (String "n" (String "u" (String "s"
           (String ":" menu)))))).
  simpl. by destruct (Split_nonempty menu ":") as (p & ps & ->).
Qed.

(** C4, as the code has it: a name that starts with [menus:] is split at
    every colon; the provider looked up is [menus] and the query handed to
    it is the piece of the name between its first and its second colon (all
    that follows [menus:] when that holds no colon), then a colon, then the
    original query.  Both indexings of the split are in bounds.  A name that
    does not start with [menus:] is looked up as it is, with the original
    query. *)
Theorem C4_menu_routing (w : World) (req : pb.QueryRequest) (format : Z)
    (v : string) :
  (strings.HasPrefix v "menus:" = true →
     ∃ menu rest,
       strings.Split v ":" = "menus" :: menu :: rest
       ∧ route v (pb.Query req) = ("menus", (menu ++ ":" ++ pb.Query req)%string))
  ∧ (∀ menu, v = ("menus:" ++ menu)%string →
       strings.ContainsByte menu ":" = false →
       route v (pb.Query req) = ("menus", (menu ++ ":" ++ pb.Query req)%string)
       ∧ task w req format v =
           (p ← Providers w !! "menus";
            Some (providers.Query p (menu ++ ":" ++ pb.Query req)%string
                    (bool_decide (length (pb.Providers req) = 1%nat))
                    (pb.Exactsearch req) format)))
  ∧ (strings.HasPrefix v "menus:" = false →
       route v (pb.Query req) = (v, pb.Query req)
       ∧ task w req format v =
           (p ← Providers w !! v;
            Some (providers.Query p (pb.Query req)
                    (bool_decide (length (pb.Providers req) = 1%nat))
                    (pb.Exactsearch req) format))).
Proof.
  split; [|split].
  - intros Hp. unfold route. rewrite Hp.
    destruct (prefix_app _ _ Hp) as [r ->].
    rewrite Split_menus.
    destruct (Split_nonempty r ":") as (menu & rest & ->).
    by exists menu, rest.
  - intros menu -> Hm.
    assert (Hr : route ("menus:" ++ menu) (pb.Query req)
                 = ("menus", (menu ++ ":" ++ pb.Query req)%string)).
    { unfold route, strings.HasPrefix. rewrite prefix_app_true.
      by rewrite Split_menus, (Split_no_sep _ _ Hm). }
    split; [done|]. unfold task. by rewrite Hr.
  - intros Hp.
    assert (Hr : route v (pb.Query req) = (v, pb.Query req)).
    { unfold route. by rewrite Hp. }
    split; [done|]. unfold task. by rewrite Hr.
Qed.

Lemma C4_menu_routing_witness :
  route "menus:networks" "wifi" = ("menus", "networks:wifi")
  ∧ route "files" "wifi" = ("files", "wifi").
Proof.
  pose (req := Demo.request ["menus:networks"] "wifi" 10).
  pose (w := Demo.world req Demo.never Demo.always).
  split.
  - apply (proj1 (proj2 (C4_menu_routing w req 1 "menus:networks"))
             "networks" eq_refl eq_refl).
  - apply (proj2 (proj2 (C4_menu_routing w req 1 "files")) eq_refl).
Defined.

(** A menu name that holds a colon is cut at it: the provider is handed
    [a:q] where the specification has [a:b:q]. *)
Lemma C4_counterexample :
  strings.HasPrefix "menus:a:b" "menus:" = true
  ∧ route "menus:a:b" "q" = ("menus", "a:q")
  ∧ route "menus:a:b" "q" ≠ ("menus", ("a:b" ++ ":" ++ "q")%string).
Proof. by vm_compute. Qed.

(** ** Cap, terminators and failures *)




(** C6, as the code has it: a run that decodes its request, observes no
    cancellation, has every write accepted and a non-negative
    [maxresults] ends with exactly one terminator: [QueryNoResults] then
    [QueryDone] and nothing else when the ranked entries are empty, and
    otherwise the [QueryItem] frames of the surviving items followed by one
    [QueryDone]. *)
Theorem C6_terminator `{GoStd} (w : World) (g : Globals)
    (format cid : Z) (data : bytes) (req : pb.QueryRequest) :
  Unmarshal w format data = Some req →
  (∀ k, ctx_done w k = false) →
  (∀ k, conn_Write w k = true) →
  0 ≤ pb.Maxresults req →
  (ranked w req format = [] →
     frames (Handle w g format cid data)
     = [writeStatus QueryNoResults; writeStatus QueryDone])
  ∧ (ranked w req format ≠ [] →
     ∃ fs, frames (Handle w g format cid data) = fs ++ [writeStatus QueryDone]
           ∧ Forall (λ f, opcode f = QueryItem) fs
           ∧ omap itemOf fs = emittedItems (Handle w g format cid data)).
Proof.
  intros Hd Hc Hw Hlo. split; intros Hr.
  - by destruct (Handle_no_results w g format cid data req Hd (Hc 0%nat) Hr).
  - pose proof (capResults_nonneg (ranked w req format) _ Hlo) as Hcap.
    unfold emittedItems.
    destruct (Handle_emit w g format cid data req _ Hd (Hc 0%nat) Hr Hcap)
      as [-> _].
    match goal with
    | |- context [emit ?w ?f ?q ?s ?h ?p 0 ?l] =>
        destruct (emit_quiet w f q s h p l 0 (λ k, Hc (S k)) Hw) as [-> Hfs]
    end.
    eexists. split; [done|].
    destruct (itemFrame_items _ _ _ _ _ _ Hfs) as (Hi & Hq & _).
    split.
    + rewrite <- Hq. apply Forall_forall. intros f Hf.
      by apply list_elem_of_filter in Hf as [? _].
    + by rewrite omap_app, app_nil_r.
Qed.

Lemma C6_terminator_witness :
  let req := Demo.request ["files"] "q" 2 in
  ∃ fs, frames (Handle (Demo.world req Demo.never Demo.always)
                  (Demo.fresh 0) 1 7 [])
        = fs ++ [writeStatus QueryDone]
        ∧ Forall (λ f, opcode f = QueryItem) fs.
Proof.
  intros req.
  destruct (C6_terminator (Demo.world req Demo.never Demo.always)
              (Demo.fresh 0) 1 7 [] req eq_refl
              (λ _, eq_refl) (λ _, eq_refl)) as [_ Hne].
  - simpl. lia.
  - destruct Hne as (fs & Hf & Hq & _).
    + vm_compute. discriminate.
    + by exists fs.
Defined.

(** A query cancelled at the barrier leaves without any frame: no
    terminator is written for it. *)
Lemma C6_counterexample :
  let req := Demo.request ["files"] "q" 3 in
  let out := Handle (Demo.world req Demo.always Demo.always)
               (Demo.fresh 0) 1 7 [] in
  frames out = []
  ∧ ¬ ∃ fs, frames out = fs ++ [writeStatus QueryDone].
Proof.
  intros req out. assert (Hf : frames out = []) by (vm_compute; reflexivity).
  split; [done|]. rewrite Hf. intros [[|f fs] Hfs]; discriminate.
Qed.

(** C7, as the code has it: a request whose payload does not decode is
    logged and the handler returns; it writes no frame, [QueryDone]
    included, does not close the connection and leaves the cancel table as
    it was. *)
Theorem C7_decode_failure `{GoStd} (w : World) (g : Globals)
    (format cid : Z) (data : bytes) :
  Unmarshal w format data = None →
  (format = 0 ∨ format = 1)
  ∧ frames (Handle w g format cid data) = []
  ∧ log (Handle w g format cid data) = [LogError "queryhandler" "protobuf"]
  ∧ exit (Handle w g format cid data) = Returned
  ∧ closed (Handle w g format cid data) = false
  ∧ queries (globals (Handle w g format cid data)) = queries g
  ∧ cancelled (globals (Handle w g format cid data)) = cancelled g.
Proof.
  intros Hd. rewrite Handle_decode_error by done. simpl.
  split; [|done].
  unfold Unmarshal in Hd. destruct format as [|[| |]|]; auto; discriminate.
Qed.

Lemma C7_decode_failure_witness :
  frames (Handle Demo.deaf (Demo.fresh 0) 1 7 [123]) = []
  ∧ closed (Handle Demo.deaf (Demo.fresh 0) 1 7 [123]) = false.
Proof.
  destruct (C7_decode_failure Demo.deaf (Demo.fresh 0) 1 7 [123] eq_refl)
    as (_ & Hf & _ & _ & Hc & _).
  by split.
Defined.

(** The textual payload [{] does not decode, and no [QueryDone] follows. *)
Lemma C7_counterexample :
  Unmarshal Demo.deaf 1 [123] = None
  ∧ writeStatus QueryDone ∉ frames (Handle Demo.deaf (Demo.fresh 0) 1 7 [123]).
Proof.
  split; [reflexivity|].
  assert (Hf : frames (Handle Demo.deaf (Demo.fresh 0) 1 7 [123]) = [])
    by (vm_compute; reflexivity).
  rewrite Hf. apply not_elem_of_nil.
Qed.

(** ** The cancel table and the query counter *)

Lemma Handle_globals `{GoStd} w g format cid data req :
  Unmarshal w format data = Some req →
  globals (Handle w g format cid data)
  = cancel (contexts g) (install (addQid g) cid).
Proof.
  intros Hd. unfold Handle. rewrite Hd.
  destruct (ctx_done w 0); [done|].
  case_bool_decide; [done|].
  destruct (capResults _ _); [|done].
  by destruct (emit _ _ _ _ _ _ _ _) as [[fs ls] []].
Qed.

Lemma Handle_qid `{GoStd} w g format cid data :
  qid (globals (Handle w g format cid data)) = uint32 (qid g + 1).
Proof.
  destruct (Unmarshal w format data) as [req|] eqn:Hd.
  - by rewrite (Handle_globals w g format cid data req Hd).
  - by rewrite Handle_decode_error.
Qed.

Lemma Handle_envelope `{GoStd} w g format cid data f resp :
  f ∈ frames (Handle w g format cid data) → envelope f = Some resp →
  opcode f = QueryItem ∧ pb.Qid resp = int32 (uint32 (qid g + 1)).
Proof.
  intros Hf He.
  destruct (Unmarshal w format data) as [req|] eqn:Hd.
  - destruct (Handle_shape w g format cid data req Hd)
      as (fs & kept & tail & Hfr & Ht & Hfs & _).
    rewrite Hfr in Hf. apply elem_of_app in Hf as [Hf|Hf].
    + destruct (itemFrame_items _ _ _ _ _ _ Hfs) as (_ & Hq & Hall).
      rewrite Forall_forall in Hall. destruct (Hall f Hf) as [v Hv].
      rewrite Hv in He. injection He as <-.
      split; [|done]. rewrite <- Hq in Hf.
      by apply list_elem_of_filter in Hf as [? _].
    + rewrite (Tail_envelope _ _ Ht Hf) in He. discriminate.
  - rewrite Handle_decode_error_frames in Hf by done. by apply elem_of_nil in Hf.
Qed.

Lemma int32_small n : 0 ≤ n < 2 ^ 31 → int32 n = n.
Proof. intros Hn. unfold int32. rewrite Z.mod_small; lia. Qed.

Lemma uint32_small n : 0 ≤ n < 2 ^ 32 → uint32 n = n.
Proof. intros Hn. unfold uint32. by rewrite Z.mod_small. Qed.




(** C9, as the code has it: the counter is an unsigned 32-bit integer and
    the envelope field a signed one.  Of two queries handled one after the
    other the later is assigned the qid of the earlier plus one, a strictly
    greater one, as long as the counter stays below 2^32; every envelope
    written for a query carries its qid converted to [int32], which is the
    qid itself while that is below 2^31. *)
Theorem C9_qid_monotone `{GoStd} (w1 w2 : World) (g : Globals)
    (format1 cid1 : Z) (data1 : bytes) (format2 cid2 : Z) (data2 : bytes) :
  0 ≤ qid g → qid g + 2 < 2 ^ 32 →
  qid (globals (Handle w1 g format1 cid1 data1)) = qid g + 1
  ∧ qid (globals (Handle w2 (globals (Handle w1 g format1 cid1 data1))
                    format2 cid2 data2))
    = qid (globals (Handle w1 g format1 cid1 data1)) + 1
  ∧ qid (globals (Handle w1 g format1 cid1 data1))
    < qid (globals (Handle w2 (globals (Handle w1 g format1 cid1 data1))
                      format2 cid2 data2))
  ∧ (∀ f resp, f ∈ frames (Handle w1 g format1 cid1 data1) →
       envelope f = Some resp →
       pb.Qid resp = int32 (qid (globals (Handle w1 g format1 cid1 data1))))
  ∧ (qid (globals (Handle w1 g format1 cid1 data1)) < 2 ^ 31 →
     ∀ f resp, f ∈ frames (Handle w1 g format1 cid1 data1) →
       envelope f = Some resp →
       pb.Qid resp = qid (globals (Handle w1 g format1 cid1 data1))).
Proof.
  intros Hlo Hhi. rewrite !Handle_qid.
  rewrite (uint32_small (qid g + 1)) by lia.
  rewrite (uint32_small (qid g + 1 + 1)) by lia.
  split; [done|]. split; [done|]. split; [lia|]. split.
  - intros f resp Hf He.
    destruct (Handle_envelope _ _ _ _ _ _ _ Hf He) as [_ ->].
    by rewrite uint32_small by lia.
  - intros Hsmall f resp Hf He.
    destruct (Handle_envelope _ _ _ _ _ _ _ Hf He) as [_ ->].
    rewrite uint32_small by lia. apply int32_small. lia.
Qed.

Lemma C9_qid_monotone_witness :
  let req := Demo.request ["files"] "q" 3 in
  let w := Demo.world req Demo.never Demo.always in
  qid (globals (Handle w (Demo.fresh 41) 1 7 [])) = 42
  ∧ qid (globals (Handle w (Demo.fresh 41) 1 7 []))
    < qid (globals (Handle w (globals (Handle w (Demo.fresh 41) 1 7 []))
                      0 8 [])).
Proof.
  intros req w.
  destruct (C9_qid_monotone w w (Demo.fresh 41) 1 7 [] 0 8 [])
    as (H1 & _ & H3 & _).
  - simpl. lia.
  - simpl. lia.
  - split; [exact H1|exact H3].
Defined.

(** The counter wraps: the query after the one assigned 2^32 - 1 is
    assigned 0; and the envelope of the query assigned 2^31 carries
    -2^31. *)
Lemma C9_counterexample :
  let req := Demo.request ["files"] "q" 3 in
  let w := Demo.world req Demo.never Demo.always in
  let out1 := Handle w (Demo.fresh (2 ^ 32 - 2)) 1 7 [] in
  let out2 := Handle w (globals out1) 1 7 [] in
  qid (globals out1) = 4294967295
  ∧ qid (globals out2) = 0
  ∧ ¬ qid (globals out1) < qid (globals out2)
  ∧ (pb.Qid <$> (head (frames (Handle w (Demo.fresh (2 ^ 31 - 1)) 1 7 []))
                  ≫= envelope)) = Some (- 2147483648).
Proof.
  intros req w out1 out2.
  assert (H1 : qid (globals out1) = 4294967295)
    by (unfold out1; by rewrite Handle_qid).
  assert (H2 : qid (globals out2) = 0)
    by (unfold out2; by rewrite Handle_qid, H1).
  split; [done|]. split; [done|]. split; [rewrite H1, H2; lia|].
  by vm_compute.
Qed.

(** C10: with a non-negative [maxresults] the slice expression of the
    result cap is in bounds, whatever the entries, and the handler does not
    fault; with a negative [maxresults] and ranked entries that are not
    empty, a run that passed the barrier faults in the slice expression
    before any frame is written; and there is such a request on the wire,
    with [maxresults] equal to -1. *)
Theorem C10_cap_bounds `{GoStd} :
  (∀ (entries : list Item) (maxresults : Z),
     0 ≤ maxresults → is_Some (capResults entries maxresults))
  ∧ (∀ w g format cid data req,
       Unmarshal w format data = Some req → 0 ≤ pb.Maxresults req →
       exit (Handle w g format cid data) = Returned)
  ∧ (∀ w g format cid data req,
       Unmarshal w format data = Some req → ctx_done w 0 = false →
       pb.Maxresults req < 0 → ranked w req format ≠ [] →
       capResults (ranked w req format) (pb.Maxresults req) = None
       ∧ exit (Handle w g format cid data) = Panicked
       ∧ frames (Handle w g format cid data) = [])
  ∧ (∃ w g format cid data req,
       Unmarshal w format data = Some req
       ∧ - 2 ^ 31 ≤ pb.Maxresults req < 0
       ∧ ranked w req format ≠ []
       ∧ exit (Handle w g format cid data) = Panicked).
Proof.
  split; [|split; [|split]].
  - intros entries maxresults Hlo. rewrite capResults_nonneg by done. eauto.
  - intros w g format cid data req. apply Handle_exit_Returned.
  - intros w g format cid data req Hd Hc Hneg Hr.
    pose proof (capResults_negative (ranked w req format) _ Hneg) as Hcap.
    split; [done|].
    by destruct (Handle_panic w g format cid data req Hd Hc Hr Hcap).
  - pose (req := Demo.request ["files"] "q" (-1)).
    pose (w := Demo.world req Demo.never Demo.always).
    assert (Hr : ranked w req 1 ≠ []).
    { intros Hr. pose proof (SortFunc_Permutation _ sortEntries (fanout w req 1)) as Hp.
      fold (ranked w req 1) in Hp. rewrite Hr in Hp.
      apply Permutation_length in Hp. by vm_compute in Hp. }
    exists w, (Demo.fresh 0), 1, 7, [], req.
    split; [done|]. split; [simpl; lia|]. split; [done|].
    pose proof (capResults_negative (ranked w req 1) (-1) eq_refl) as Hcap.
    by destruct (Handle_panic w (Demo.fresh 0) 1 7 [] req eq_refl eq_refl Hr Hcap).
Qed.

Lemma C10_cap_bounds_witness :
  is_Some (capResults [Demo.item "files" "q" 7; Demo.item "files" "Alpha" 5] 1)
  ∧ capResults (ranked (Demo.world (Demo.request ["files"] "q" (-1))
                          Demo.never Demo.always)
                  (Demo.request ["files"] "q" (-1)) 1) (-1) = None.
Proof.
  split.
  - apply (proj1 C10_cap_bounds). lia.
  - apply (proj1 (proj2 (proj2 C10_cap_bounds))
             (Demo.world (Demo.request ["files"] "q" (-1))
                Demo.never Demo.always)
             (Demo.fresh 0) 1 7 []
             (Demo.request ["files"] "q" (-1)) eq_refl eq_refl).
    + simpl. lia.
    + vm_compute. discriminate.
Defined.

(** * Further properties of the handler *)

Lemma concat_Permutation {A : Type} (l1 l2 : list (list A)) :
  l1 ≡ₚ l2 → concat l1 ≡ₚ concat l2.
Proof.
  induction 1 as [|x l1 l2 _ IH|x y l|l1 l2 l3 _ IH1 _ IH2]; simpl.
  - done.
  - by rewrite IH.
  - rewrite !app_assoc. by rewrite (Permutation_app_comm y x).
  - by etrans.
Qed.

Lemma ranked_Permutation `{GoStd} w req format :
  fair w →
  ranked w req format ≡ₚ concat (omap (task w req format) (pb.Providers req)).
Proof.
  intros Hf. unfold ranked, fanout.
  rewrite SortFunc_Permutation. apply concat_Permutation, Hf.
Qed.

(** X1: every envelope a run writes carries the qid assigned to the run,
    the query string of the request as it was received, also where the
    provider was handed a rewritten one, and an item of the ranked
    entries. *)
Theorem X1_envelope_original_query `{GoStd} (w : World) (g : Globals)
    (format cid : Z) (data : bytes) (req : pb.QueryRequest)
    (f : Frame) (resp : pb.QueryResponse) :
  Unmarshal w format data = Some req →
  f ∈ frames (Handle w g format cid data) →
  envelope f = Some resp →
  pb.RQuery resp = pb.Query req
  ∧ pb.Item resp ∈ ranked w req format
  ∧ resp = respOf (uint32 (qid g + 1)) (pb.Query req) (pb.Item resp).
Proof.
  intros Hd Hf He.
  destruct (Handle_shape w g format cid data req Hd)
    as (fs & kept & tail & Hfr & Ht & Hfs & Hsub & _).
  rewrite Hfr in Hf. apply elem_of_app in Hf as [Hf|Hf].
  - assert (Hv : ∃ v, v ∈ kept
                      ∧ envelope f = Some (respOf (qid (addQid g)) (pb.Query req) v)).
    { clear Hfr Hsub. induction Hfs as [|f' v fs kept (b & _ & ->) _ IH].
      - by apply elem_of_nil in Hf.
      - apply elem_of_cons in Hf as [->|Hf].
        + exists v. split; [left|done].
        + destruct (IH Hf) as (v' & Hv' & He'). exists v'. split; [by right|done]. }
    destruct Hv as (v & Hv & Hev). rewrite Hev in He. injection He as <-.
    split; [done|]. split; [|done]. simpl. by eapply elem_of_sublist.
  - rewrite (Tail_envelope _ _ Ht Hf) in He. discriminate.
Qed.

Lemma X1_envelope_original_query_witness :
  let req := Demo.request ["menus:x"] "q" 3 in
  let resp := respOf 1 "q" (Demo.item "files" "x:q" 7) in
  pb.RQuery resp = pb.Query req
  ∧ pb.Item resp ∈ ranked (Demo.world req Demo.never Demo.always) req 1
  ∧ resp = respOf (uint32 (qid (Demo.fresh 0) + 1)) (pb.Query req) (pb.Item resp).
Proof.
  intros req resp.
  apply (X1_envelope_original_query (Demo.world req Demo.never Demo.always)
           (Demo.fresh 0) 1 7 [] req
           (dataFrame QueryItem resp [123; 125]) resp eq_refl).
  - apply list_elem_of_In. vm_compute. left. reflexivity.
  - reflexivity.
Defined.

Section EmitMore.
Variables (w : World) (format qqid : Z) (query : string).
Variables (hide : bool) (wsprefix : string).

Local Abbreviation emit' := (emit w format qqid query hide wsprefix).
Local Abbreviation itemFrame' := (itemFrame w format qqid query).

(** A refused write ends the loop: what was written belongs to the
    iterations before it. *)
Lemma emit_write_failed entries i k v b :
  entries !! k = Some v →
  suppressed hide wsprefix v = false →
  Marshal w format (respOf qqid query v) = Some b →
  conn_Write w (i + k) = false →
  (emit' i entries).2 ≠ LoopDone
  ∧ ∃ kept, kept `sublist_of` take k entries
      ∧ Forall2 itemFrame' (emit' i entries).1.1 kept.
Proof.
  revert i k. induction entries as [|x rest IH]; intros i k Hk Hs Hm Hw;
    [done|]. simpl.
  destruct k as [|k].
  { injection Hk as ->. rewrite Nat.add_0_r in Hw. rewrite Hs, Hm, Hw.
    destruct (ctx_done w (S i)); simpl;
      (split; [done|]; exists []; split; constructor). }
  simpl in Hk.
  assert (Hw' : conn_Write w (S i + k) = false).
  { by replace (S i + k)%nat with (i + S k)%nat by lia. }
  destruct (IH (S i) k Hk Hs Hm Hw') as (Hne & kept & Hsub & Hfs).
  destruct (ctx_done w (S i)).
  { split; [done|]. exists []. split; [apply sublist_nil_l|constructor]. }
  destruct (suppressed hide wsprefix x).
  { split; [done|]. exists kept. split; [by apply sublist_cons|done]. }
  destruct (Marshal w format (respOf qqid query x)) as [bx|] eqn:Hmx.
  - destruct (conn_Write w i).
    + destruct (emit' (S i) rest) as [[fs ls] e]. simpl in *.
      split; [done|]. exists (x :: kept).
      split; [by apply sublist_skip|]. constructor; [by exists bx|done].
    + split; [done|]. exists []. split; [apply sublist_nil_l|constructor].
  - destruct (emit' (S i) rest) as [[fs ls] e]. simpl in *.
    split; [done|]. exists kept. split; [by apply sublist_cons|done].
Qed.

(** The log of a loop that runs to its end: one entry for each item that is
    not suppressed and that the encoder refuses. *)
Lemma emit_quiet_log entries i :
  (∀ k, ctx_done w (S k) = false) → (∀ k, conn_Write w k = true) →
  (emit' i entries).1.2
  = (λ _, LogError "queryrequesthandler" "marshal")
      <$> filter (λ v, suppressed hide wsprefix v = false
                       ∧ Marshal w format (respOf qqid query v) = None)
            entries.
Proof.
  intros Hc Hw. revert i.
  induction entries as [|v rest IH]; intros i; simpl; [done|].
  rewrite Hc, Hw. specialize (IH (S i)).
  destruct (suppressed hide wsprefix v) eqn:Hs.
  { rewrite filter_cons_False; [done|]. intros [? _]. congruence. }
  destruct (Marshal w format (respOf qqid query v)) as [b|] eqn:Hm.
  - destruct (emit' (S i) rest) as [[fs ls] e]. simpl in *.
    rewrite filter_cons_False; [done|]. intros [_ ?]. congruence.
  - destruct (emit' (S i) rest) as [[fs ls] e]. simpl in *.
    rewrite filter_cons_True by done. simpl. by rewrite IH.
Qed.

End EmitMore.

Lemma itemFrame_opcode_items w format qqid query fs kept (l : list Item) :
  Forall2 (itemFrame w format qqid query) fs kept → kept `sublist_of` l →
  Forall (λ f, opcode f = QueryItem ∧ ∃ v, itemOf f = Some v ∧ v ∈ l) fs.
Proof.
  intros Hfs Hsub. induction Hfs as [|f v fs kept (b & _ & ->) _ IH];
    constructor.
  - split; [done|]. exists v. split; [done|].
    eapply elem_of_sublist; [|exact Hsub]. left.
  - apply IH. etrans; [|exact Hsub]. by apply sublist_cons.
Qed.

(** X2: when the write of the frame of entry [k] is refused, the run
    returns at once: every frame it wrote is the [QueryItem] frame of one
    of the [k] entries before, and no [QueryDone] follows. *)
Theorem X2_write_failure_aborts `{GoStd} (w : World) (g : Globals)
    (format cid : Z) (data : bytes) (req : pb.QueryRequest)
    (capped : list Item) (k : nat) (v : Item) (b : bytes) :
  Unmarshal w format data = Some req →
  ctx_done w 0 = false →
  ranked w req format ≠ [] →
  capResults (ranked w req format) (pb.Maxresults req) = Some capped →
  capped !! k = Some v →
  suppressed (hideWebsearch g req capped) (wsprefixOf g req) v = false →
  Marshal w format (respOf (uint32 (qid g + 1)) (pb.Query req) v) = Some b →
  conn_Write w k = false →
  Forall (λ f, opcode f = QueryItem
               ∧ ∃ v', itemOf f = Some v' ∧ v' ∈ take k capped)
    (frames (Handle w g format cid data))
  ∧ (writeStatus QueryDone ∉ frames (Handle w g format cid data))
  ∧ exit (Handle w g format cid data) = Returned.
Proof.
  intros Hd Hc Hr Hcap Hk Hs Hm Hw.
  destruct (Handle_emit w g format cid data req capped Hd Hc Hr Hcap)
    as [-> ->].
  destruct (emit_write_failed w format (qid (addQid g)) (pb.Query req)
              (hideWebsearch g req capped) (wsprefixOf g req) capped 0 k v b
              Hk Hs Hm Hw) as (Hne & kept & Hsub & Hfs).
  destruct (emit _ _ _ _ _ _ _ _) as [[fs ls] e]. simpl in *.
  assert (Htail : (if e is LoopDone then [writeStatus QueryDone] else [])
                  = []) by by destruct e.
  rewrite Htail, app_nil_r.
  pose proof (itemFrame_opcode_items _ _ _ _ _ _ _ Hfs Hsub) as Hall.
  split; [done|]. split; [|done].
  intros Hin. rewrite Forall_forall in Hall.
  by destruct (Hall _ Hin) as [? _].
Qed.

Lemma X2_write_failure_aborts_witness :
  let req := Demo.request ["files"] "q" 3 in
  let w := Demo.world req Demo.never (λ i, bool_decide (i ≠ 1%nat)) in
  Forall (λ f, opcode f = QueryItem
               ∧ ∃ v', itemOf f = Some v'
                       ∧ v' ∈ take 1 [Demo.item "files" "q" 7;
                                      Demo.item "files" "Alpha" 5;
                                      Demo.item "files" "beta" 5])
    (frames (Handle w (Demo.fresh 0) 1 7 []))
  ∧ (writeStatus QueryDone ∉ frames (Handle w (Demo.fresh 0) 1 7 []))
  ∧ exit (Handle w (Demo.fresh 0) 1 7 []) = Returned.
Proof.
  intros req w.
  apply (X2_write_failure_aborts w (Demo.fresh 0) 1 7 [] req
           [Demo.item "files" "q" 7; Demo.item "files" "Alpha" 5;
            Demo.item "files" "beta" 5] 1 (Demo.item "files" "Alpha" 5)
           [123; 125]).
  - reflexivity.
  - reflexivity.
  - vm_compute. discriminate.
  - vm_compute. reflexivity.
  - reflexivity.
  - reflexivity.
  - reflexivity.
  - reflexivity.
Defined.

(** X3: in a run that is not cancelled and whose writes succeed, an item
    the encoder refuses costs only itself: it is logged and skipped, every
    other entry that is not suppressed is written, in rank order, and the
    run ends with [QueryDone] and the summary line. *)
Theorem X3_marshal_error_isolated `{GoStd} (w : World) (g : Globals)
    (format cid : Z) (data : bytes) (req : pb.QueryRequest)
    (capped : list Item) :
  Unmarshal w format data = Some req →
  (∀ k, ctx_done w k = false) →
  (∀ k, conn_Write w k = true) →
  ranked w req format ≠ [] →
  capResults (ranked w req format) (pb.Maxresults req) = Some capped →
  let hide := hideWebsearch g req capped in
  let encoded v :=
    Marshal w format (respOf (uint32 (qid g + 1)) (pb.Query req) v) in
  emittedItems (Handle w g format cid data)
  = filter (λ v, suppressed hide (wsprefixOf g req) v = false
                 ∧ is_Some (encoded v)) capped
  ∧ log (Handle w g format cid data)
    = ((λ _, LogError "queryrequesthandler" "marshal")
         <$> filter (λ v, suppressed hide (wsprefixOf g req) v = false
                          ∧ encoded v = None) capped)
      ++ [providersInfo req capped]
  ∧ last (frames (Handle w g format cid data)) = Some (writeStatus QueryDone).
Proof.
  intros Hd Hc Hw Hr Hcap hide encoded.
  pose proof (emit_quiet w format (qid (addQid g)) (pb.Query req) hide
                (wsprefixOf g req) capped 0 (λ k, Hc (S k)) Hw) as [He Hfs].
  pose proof (emit_quiet_log w format (qid (addQid g)) (pb.Query req) hide
                (wsprefixOf g req) capped 0 (λ k, Hc (S k)) Hw) as Hl.
  destruct (itemFrame_items _ _ _ _ _ _ Hfs) as (Hi & _ & _).
  unfold emittedItems, Handle. rewrite Hd, (Hc 0%nat), Hcap.
  rewrite bool_decide_eq_false_2 by (by destruct (ranked w req format)).
  change (hideWebsearch (addQid g) req capped) with hide.
  change (wsprefixOf (addQid g) req) with (wsprefixOf g req).
  destruct (emit w format (qid (addQid g)) (pb.Query req) hide
              (wsprefixOf g req) 0 capped) as [[fs ls] e].
  simpl in He, Hfs, Hl, Hi. subst e ls. simpl.
  split; [by rewrite omap_app, Hi, app_nil_r|].
  split; [done|]. by rewrite last_snoc.
Qed.

Lemma X3_marshal_error_isolated_witness :
  let req := Demo.request ["files"] "q" 3 in
  let w := Scenes.picky req "Alpha" in
  emittedItems (Handle w (Demo.fresh 0) 1 7 [])
  = [Demo.item "files" "q" 7; Demo.item "files" "beta" 5]
  ∧ log (Handle w (Demo.fresh 0) 1 7 [])
    = [LogError "queryrequesthandler" "marshal"; LogInfo "providers" "files" 3]
  ∧ last (frames (Handle w (Demo.fresh 0) 1 7 [])) = Some (writeStatus QueryDone).
Proof.
  intros req w.
  destruct (X3_marshal_error_isolated w (Demo.fresh 0) 1 7 [] req
              [Demo.item "files" "q" 7; Demo.item "files" "Alpha" 5;
               Demo.item "files" "beta" 5]
              eq_refl (λ _, eq_refl) (λ _, eq_refl)) as (Hi & Hlog & Hl).
  - vm_compute. discriminate.
  - vm_compute. reflexivity.
  - split; [rewrite Hi; vm_compute; reflexivity|].
    split; [rewrite Hlog; vm_compute; reflexivity|exact Hl].
Defined.

Lemma fanout_unregistered w req format :
  fair w →
  (∀ v, v ∈ pb.Providers req →
        Providers w !! (route v (pb.Query req)).1 = None) →
  fanout w req format = [].
Proof.
  intros Hf Hnone. unfold fanout.
  assert (Ht : omap (task w req format) (pb.Providers req) = []).
  { induction (pb.Providers req) as [|v vs IH]; [done|]. simpl.
    unfold task at 1. destruct (route v (pb.Query req)) as [name text] eqn:Hr.
    pose proof (Hnone v (list_elem_of_here _ _)) as Hv. rewrite Hr in Hv.
    simpl in Hv. rewrite Hv. simpl. apply IH.
    intros v' Hv'. apply Hnone. by right. }
  rewrite Ht. pose proof (Hf []) as Hp.
  apply Permutation_nil_r in Hp. by rewrite Hp.
Qed.

Lemma ranked_unregistered `{GoStd} w req format :
  fair w →
  (∀ v, v ∈ pb.Providers req →
        Providers w !! (route v (pb.Query req)).1 = None) →
  ranked w req format = [].
Proof.
  intros Hf Hnone. unfold ranked.
  rewrite (fanout_unregistered w req format Hf Hnone).
  apply Permutation_nil_r, SortFunc_Permutation.
Qed.

(** X4: a request none of whose names leads to a registered provider, an
    empty list of names included, is no error: unless the query is
    cancelled at the barrier, the answer is [QueryNoResults] and
    [QueryDone] and nothing else. *)
Theorem X4_unknown_providers `{GoStd} (w : World) (g : Globals)
    (format cid : Z) (data : bytes) (req : pb.QueryRequest) :
  fair w →
  Unmarshal w format data = Some req →
  ctx_done w 0 = false →
  (∀ v, v ∈ pb.Providers req →
        Providers w !! (route v (pb.Query req)).1 = None) →
  frames (Handle w g format cid data)
  = [writeStatus QueryNoResults; writeStatus QueryDone]
  ∧ exit (Handle w g format cid data) = Returned.
Proof.
  intros Hf Hd Hc Hnone.
  apply (Handle_no_results w g format cid data req Hd Hc).
  by apply ranked_unregistered.
Qed.

Lemma Demo_world_fair req done written : fair (Demo.world req done written).
Proof. by intros chunks. Qed.

Lemma X4_unknown_providers_witness :
  let req := Demo.request ["zzz"; "menu:files"] "q" 3 in
  frames (Handle (Demo.world req Demo.never Demo.always) (Demo.fresh 0) 1 7 [])
  = [writeStatus QueryNoResults; writeStatus QueryDone]
  ∧ exit (Handle (Demo.world req Demo.never Demo.always) (Demo.fresh 0) 1 7 [])
    = Returned.
Proof.
  intros req.
  apply (X4_unknown_providers (Demo.world req Demo.never Demo.always)
           (Demo.fresh 0) 1 7 [] req (Demo_world_fair _ _ _) eq_refl eq_refl).
  intros v Hv. apply list_elem_of_In in Hv.
  destruct Hv as [<-|[<-|[]]]; vm_compute; reflexivity.
Defined.

(** X5: a format byte other than 0 and 1 is not rejected: the payload is
    not looked at, the request is taken to be the empty one, and unless
    the query is cancelled at the barrier the answer is [QueryNoResults]
    and [QueryDone], whatever the payload. *)
Theorem X5_undeclared_format `{GoStd} (w : World) (g : Globals)
    (format cid : Z) (data : bytes) :
  fair w → format ≠ 0 → format ≠ 1 → ctx_done w 0 = false →
  Unmarshal w format data = Some pb.empty_request
  ∧ frames (Handle w g format cid data)
    = [writeStatus QueryNoResults; writeStatus QueryDone]
  ∧ log (Handle w g format cid data) = [LogInfo "providers" "" 0].
Proof.
  intros Hf H0 H1 Hc.
  assert (Hd : Unmarshal w format data = Some pb.empty_request).
  { unfold Unmarshal. by destruct format as [|[| |]|]. }
  assert (Hr : ranked w pb.empty_request format = []).
  { apply ranked_unregistered; [done|]. intros v Hv. by apply elem_of_nil in Hv. }
  split; [done|]. unfold Handle. by rewrite Hd, Hc, Hr.
Qed.

Lemma X5_undeclared_format_witness :
  let w := Demo.world (Demo.request ["files"] "q" 3) Demo.never Demo.always in
  frames (Handle w (Demo.fresh 0) 2 7 [1; 2; 3])
  = [writeStatus QueryNoResults; writeStatus QueryDone].
Proof.
  intros w.
  destruct (X5_undeclared_format w (Demo.fresh 0) 2 7 [1; 2; 3]
              (Demo_world_fair _ _ _)) as (_ & Hf & _); [done..|exact Hf].
Defined.

(** X6: merging and ranking neither drop nor join anything: the ranked
    entries are a rearrangement of the results of the registered providers
    taken together, so an item two providers return is there twice. *)
Theorem X6_merge_keeps_all `{GoStd} (w : World) (req : pb.QueryRequest)
    (format : Z) :
  fair w →
  ranked w req format
    ≡ₚ concat (omap (task w req format) (pb.Providers req))
  ∧ length (ranked w req format)
    = length (concat (omap (task w req format) (pb.Providers req))).
Proof.
  intros Hf. pose proof (ranked_Permutation w req format Hf) as Hp.
  split; [done|]. by apply Permutation_length.
Qed.

Lemma X6_merge_keeps_all_witness :
  let req := Demo.request ["files"; "menus:files"] "q" 3 in
  length (ranked (Demo.world req Demo.never Demo.always) req 1) = 6%nat.
Proof.
  intros req.
  destruct (X6_merge_keeps_all (Demo.world req Demo.never Demo.always) req 1
              (Demo_world_fair _ _ _)) as [_ Hl].
  rewrite Hl. vm_compute. reflexivity.
Defined.

(** ** Supersession *)

Lemma install_fresh g cid : handles_fresh g → handles_fresh (install g cid).
Proof.
  intros [Hlt Hinj]. split; simpl.
  - intros cid0 c. destruct (decide (cid = cid0)) as [->|Hne].
    + rewrite lookup_insert_eq. intros [= <-]. lia.
    + rewrite lookup_insert_ne by done. intros Hc.
      specialize (Hlt _ _ Hc). lia.
  - intros cid1 cid2 c.
    destruct (decide (cid = cid1)) as [->|Hne1];
      destruct (decide (cid1 = cid2)) as [->|Hne2]; try done.
    + rewrite lookup_insert_eq, lookup_insert_ne by done.
      intros [= <-] Hc. specialize (Hlt _ _ Hc). lia.
    + destruct (decide (cid = cid2)) as [->|Hne3].
      * rewrite lookup_insert_eq, lookup_insert_ne by done.
        intros Hc [= <-]. specialize (Hlt _ _ Hc). lia.
      * rewrite !lookup_insert_ne by done. apply Hinj.
Qed.

Lemma Handle_fresh `{GoStd} w g format cid data :
  handles_fresh g → handles_fresh (globals (Handle w g format cid data)).
Proof.
  intros Hg. destruct (Unmarshal w format data) as [req|] eqn:Hd.
  - rewrite (Handle_globals w g format cid data req Hd).
    exact (install_fresh (addQid g) cid Hg).
  - by rewrite Handle_decode_error.
Qed.

Lemma serve_fresh `{GoStd} g calls :
  handles_fresh g → handles_fresh (serve g calls).
Proof.
  revert g. induction calls as [|c calls IH]; intros g Hg; [done|].
  simpl. apply IH. by apply Handle_fresh.
Qed.

Lemma Handle_other_slot `{GoStd} w g format cid data cid' c :
  handles_fresh g → cid' ≠ cid →
  queries g !! cid' = Some (Some c) →
  queries (globals (Handle w g format cid data)) !! cid' = Some (Some c)
  ∧ (c ∈ cancelled (globals (Handle w g format cid data)) ↔ c ∈ cancelled g).
Proof.
  intros [Hlt Hinj] Hne Hc.
  destruct (Unmarshal w format data) as [req|] eqn:Hd.
  - rewrite (Handle_globals w g format cid data req Hd). simpl.
    rewrite lookup_insert_ne by done. split; [done|].
    pose proof (Hlt _ _ Hc) as Hlt'.
    rewrite elem_of_union, elem_of_singleton.
    destruct (queries g !! cid) as [[val|]|] eqn:Hval.
    + rewrite elem_of_union, elem_of_singleton.
      assert (c ≠ val) by (intros ->; by specialize (Hinj _ _ _ Hc Hval)).
      split; [intros [?|[?|?]]; [lia|done..]|auto].
    + split; [intros [?|?]; [lia|done]|auto].
    + split; [intros [?|?]; [lia|done]|auto].
  - by rewrite Handle_decode_error.
Qed.

(** X7: a query of one connection neither replaces nor cancels the handle
    of another: in every state the handler reaches from an empty cancel
    table, handling a request of [cid] leaves the slot of every other
    connection as it was and cancels its context only if it was cancelled
    before. *)
Theorem X7_supersession_isolated `{GoStd} (g0 : Globals) (calls : list Call)
    (w : World) (format cid : Z) (data : bytes) (cid' : Z) (c : CancelFunc) :
  queries g0 = ∅ →
  cid' ≠ cid →
  queries (serve g0 calls) !! cid' = Some (Some c) →
  queries (globals (Handle w (serve g0 calls) format cid data)) !! cid'
    = Some (Some c)
  ∧ (c ∈ cancelled (globals (Handle w (serve g0 calls) format cid data))
     ↔ c ∈ cancelled (serve g0 calls)).
Proof.
  intros H0 Hne Hc. apply Handle_other_slot; [|done..].
  apply serve_fresh. split.
  - intros cid0 c0. by rewrite H0, lookup_empty.
  - intros cid1 cid2 c0. by rewrite H0, lookup_empty.
Qed.

Lemma X7_supersession_isolated_witness :
  let req := Demo.request ["files"] "q" 3 in
  let call8 := {| call_world := Demo.world req Demo.always Demo.always;
                  call_format := 1; call_cid := 8; call_data := [] |} in
  let out := Handle (Demo.world req Demo.never Demo.always)
               (serve (Demo.fresh 0) [call8]) 1 7 [] in
  queries (globals out) !! 8 = Some (Some 0%nat)
  ∧ (0%nat ∈ cancelled (globals out)
     ↔ 0%nat ∈ cancelled (serve (Demo.fresh 0) [call8])).
Proof.
  intros req call8 out.
  apply (X7_supersession_isolated (Demo.fresh 0) [call8]
           (Demo.world req Demo.never Demo.always) 1 7 [] 8 0%nat).
  - reflexivity.
  - discriminate.
  - vm_compute. reflexivity.
Defined.

(** ** The prefix hint *)

Lemma lastPrefix_cases prefixes query acc :
  lastPrefix prefixes query acc = acc
  ∨ ∃ k, (k, lastPrefix prefixes query acc) ∈ prefixes
         ∧ strings.HasPrefix query k = true.
Proof.
  revert acc. induction prefixes as [|[k v] rest IH]; intros acc; simpl.
  { by left. }
  destruct (IH (if strings.HasPrefix query k then v else acc))
    as [Heq|(k' & Hin & Hp)].
  - rewrite Heq. destruct (strings.HasPrefix query k) eqn:Hk; [|by left].
    right. exists k. split; [left|done].
  - right. exists k'. split; [by right|done].
Qed.


Lemma lastPrefix_agreed prefixes query acc k v :
  (k, v) ∈ prefixes → strings.HasPrefix query k = true →
  (∀ k' v', (k', v') ∈ prefixes → strings.HasPrefix query k' = true → v' = v) →
  lastPrefix prefixes query acc = v.
Proof.
  revert acc. induction prefixes as [|[k0 v0] rest IH]; intros acc Hin Hk Hag.
  { by apply elem_of_nil in Hin. }
  simpl. apply elem_of_cons in Hin as [[= <- <-]|Hin].
  - rewrite Hk.
    destruct (lastPrefix_cases rest query v) as [Hv|(k' & Hin' & Hk')];
      [done|].
    apply (Hag k'); [by right|done].
  - apply IH; [done..|]. intros k' v' Hin'. apply Hag. by right.
Qed.

Lemma Contains_elem_of xs x : slices.Contains xs x = true ↔ x ∈ xs.
Proof.
  unfold slices.Contains. rewrite existsb_exists. split.
  - intros (y & Hy & He). apply String.eqb_eq in He as ->.
    by apply list_elem_of_In.
  - intros Hx. exists x. split; [by apply list_elem_of_In|apply String.eqb_refl].
Qed.



(** ** The reach of the suppression *)

Lemma filter_all {A : Type} (P : A → Prop) `{!∀ x, Decision (P x)}
    (l : list A) :
  (∀ x, x ∈ l → P x) → filter P l = l.
Proof.
  induction l as [|a l IH]; intros HP; [done|].
  rewrite filter_cons_True by (apply HP; left).
  f_equal. apply IH. intros x Hx. apply HP. by right.
Qed.

(** The items of a run that is not cancelled and whose writes succeed. *)
Lemma Handle_quiet_items `{GoStd} w g format cid data req capped :
  Unmarshal w format data = Some req →
  (∀ k, ctx_done w k = false) →
  (∀ k, conn_Write w k = true) →
  capResults (ranked w req format) (pb.Maxresults req) = Some capped →
  emittedItems (Handle w g format cid data)
  = filter (λ v, suppressed (hideWebsearch g req capped) (wsprefixOf g req) v
                 = false
                 ∧ is_Some (Marshal w format
                              (respOf (uint32 (qid g + 1)) (pb.Query req) v)))
      capped.
Proof.
  intros Hd Hc Hw Hcap. unfold emittedItems.
  destruct (decide (ranked w req format = [])) as [Hr|Hr].
  { destruct (Handle_no_results w g format cid data req Hd (Hc 0%nat) Hr)
      as [-> _].
    apply capResults_sublist in Hcap. rewrite Hr in Hcap.
    by apply sublist_nil_r in Hcap as ->. }
  destruct (Handle_emit w g format cid data req capped Hd (Hc 0%nat) Hr Hcap)
    as [-> _].
  destruct (emit_quiet w format (qid (addQid g)) (pb.Query req)
              (hideWebsearch g req capped) (wsprefixOf g req) capped 0
              (λ k, Hc (S k)) Hw) as [-> Hfs].
  destruct (itemFrame_items _ _ _ _ _ _ Hfs) as [Hi _].
  by rewrite omap_app, Hi, app_nil_r.
Qed.

(** X9: the suppression touches websearch items only, and only in
    queries to several providers: in a run that is not cancelled, whose
    writes succeed and whose items all encode, the entries of other
    providers left by the cap are all written, in rank order; and when at
    most one provider was requested, or [WebsearchAlwaysShow] is on, or the
    entries left by the cap do not exceed the slots, all entries left by
    the cap are written, websearch items included. *)
Theorem X9_suppression_scope `{GoStd} (w : World) (g : Globals)
    (format cid : Z) (data : bytes) (req : pb.QueryRequest)
    (capped : list Item) :
  Unmarshal w format data = Some req →
  (∀ k, ctx_done w k = false) →
  (∀ k, conn_Write w k = true) →
  capResults (ranked w req format) (pb.Maxresults req) = Some capped →
  (∀ v, v ∈ capped →
        is_Some (Marshal w format
                   (respOf (uint32 (qid g + 1)) (pb.Query req) v))) →
  filter (λ v, pb.Provider v ≠ "websearch")
    (emittedItems (Handle w g format cid data))
  = filter (λ v, pb.Provider v ≠ "websearch") capped
  ∧ ((length (pb.Providers req) ≤ 1)%nat
     ∨ WebsearchAlwaysShow g = true
     ∨ Z.of_nat (length capped) ≤ MaxGlobalItemsToDisplayWebsearch g →
     emittedItems (Handle w g format cid data) = capped).
Proof.
  intros Hd Hc Hw Hcap Hm.
  rewrite (Handle_quiet_items w g format cid data req capped Hd Hc Hw Hcap).
  split.
  - rewrite list_filter_filter. apply filter_iff_in. intros v Hv.
    split; [by intros [? _]|]. intros Hp. split; [done|].
    split; [|by apply Hm]. unfold suppressed.
    by destruct (String.eqb_spec (pb.Provider v) "websearch").
  - intros Hcase. apply filter_all. intros v Hv. split; [|by apply Hm].
    assert (Hh : hideWebsearch g req capped = false).
    { unfold hideWebsearch.
      destruct Hcase as [Hl|[Ha|Hs]].
      - destruct (Z.ltb_spec 1 (Z.of_nat (length (pb.Providers req))));
          [lia|done].
      - rewrite Ha. simpl. by rewrite andb_false_r.
      - destruct (Z.ltb_spec (MaxGlobalItemsToDisplayWebsearch g)
                    (Z.of_nat (length capped))); [lia|].
        by rewrite andb_false_r. }
    unfold suppressed. rewrite Hh. by rewrite andb_false_r.
Qed.

Lemma X9_suppression_scope_witness :
  let req := Demo.request ["websearch"] "q" 3 in
  emittedItems (Handle (Demo.world req Demo.never Demo.always)
                  (Demo.fresh 0) 1 7 [])
  = [Demo.item "websearch" "Google" 10].
Proof.
  intros req.
  destruct (X9_suppression_scope (Demo.world req Demo.never Demo.always)
              (Demo.fresh 0) 1 7 [] req [Demo.item "websearch" "Google" 10]
              eq_refl (λ _, eq_refl) (λ _, eq_refl)) as [_ Hall].
  - vm_compute. reflexivity.
  - intros v Hv. by eexists.
  - apply Hall. left. simpl. lia.
Defined.

(** * The client *)

Lemma Uint32_PutUint32 n :
  0 ≤ n < 2 ^ 32 →
  client.Uint32 ((n / 2 ^ 24) mod 256) ((n / 2 ^ 16) mod 256)
    ((n / 2 ^ 8) mod 256) (n mod 256) = n.
Proof.
  intros Hn. unfold client.Uint32.
  rewrite !Z.mod_mod by lia.
  change (2 ^ 24) with (256 * (256 * 256)).
  change (2 ^ 16) with (256 * 256). change (2 ^ 8) with 256.
  rewrite <- !Z.div_div by lia.
  pose proof (Z.div_mod n 256 ltac:(lia)) as H1.
  pose proof (Z.div_mod (n / 256) 256 ltac:(lia)) as H2.
  pose proof (Z.div_mod (n / 256 / 256) 256 ltac:(lia)) as H3.
  assert (H4 : n / 256 / 256 / 256 < 256).
  { apply Z.div_lt_upper_bound; [lia|]. apply Z.div_lt_upper_bound; [lia|].
    apply Z.div_lt_upper_bound; lia. }
  assert (H5 : 0 ≤ n / 256 / 256 / 256).
  { repeat apply Z.div_pos; lia. }
  rewrite (Z.mod_small (n / 256 / 256 / 256) 256) by lia. lia.
Qed.

(** One data frame on the stream: the client prints its envelope and goes
    on with what follows. *)
Lemma readLoop_data_frame e async fuel code resp' resp b rest :
  code = 0 ∨ code = 1 →
  b ≠ [] → Z.of_nat (length b) + 5 < 2 ^ 32 →
  client.UnmarshalResponse e b = Some resp →
  client.readLoop e async false (S fuel) (wire (dataFrame code resp' b) ++ rest)
  = client.printed (client.Plain resp) (client.readLoop e async false fuel rest).
Proof.
  intros Hcode Hb Hlen Hu.
  assert (Hn : uint32 (Z.of_nat (length b)) = Z.of_nat (length b))
    by (apply uint32_small; lia).
  unfold dataFrame, PutUint32. cbn [wire app]. rewrite Hn.
  set (n := Z.of_nat (length b)) in *.
  set (x0 := (n / 2 ^ 24) mod 256). set (x1 := (n / 2 ^ 16) mod 256).
  set (x2 := (n / 2 ^ 8) mod 256). set (x3 := n mod 256).
  cbn [client.readLoop].
  assert (HU : client.Uint32 x0 x1 x2 x3 = n)
    by (apply Uint32_PutUint32; lia).
  rewrite HU.
  assert (Hsize : Z.to_nat (uint32 (5 + n)) = (5 + length b)%nat).
  { rewrite uint32_small by lia. lia. }
  rewrite Hsize.
  change (code :: x0 :: x1 :: x2 :: x3 :: b ++ rest)
    with (([code; x0; x1; x2; x3] ++ b) ++ rest).
  set (hdr := [code; x0; x1; x2; x3]).
  assert (Hl : length (hdr ++ b) = (5 + length b)%nat) by by rewrite length_app.
  rewrite <- Hl.
  rewrite take_app_length, drop_app_length.
  destruct (Nat.ltb_spec (length ((hdr ++ b) ++ rest)) (length (hdr ++ b)))
    as [Hlt|_]; [rewrite length_app in Hlt; lia|].
  destruct (Nat.ltb_spec (length (hdr ++ b)) 5) as [Hlt|_]; [lia|].
  change (drop 5 (hdr ++ b)) with b.
  rewrite bool_decide_eq_false_2 by (by destruct b).
  rewrite Hu.
  destruct Hcode as [-> | ->]; reflexivity.
Qed.

Lemma readLoop_done_sync e j fuel rest :
  client.readLoop e false j (S fuel) (wire (writeStatus QueryDone) ++ rest)
  = Some ([], client.StopDone).
Proof. reflexivity. Qed.

Lemma readLoop_done_async e j fuel rest :
  client.readLoop e true j (S fuel) (wire (writeStatus QueryDone) ++ rest)
  = client.readLoop e true j fuel rest.
Proof. reflexivity. Qed.

Lemma readLoop_empty e async j fuel rest :
  client.readLoop e async j (S fuel) (wire (writeStatus QueryNoResults) ++ rest)
  = client.readLoop e async j fuel rest.
Proof. reflexivity. Qed.

Lemma foldr_printed ls ls' st :
  foldr client.printed (Some (ls', st)) (client.Plain <$> ls)
  = Some ((client.Plain <$> ls) ++ ls', st).
Proof.
  induction ls as [|l ls IH]; [done|].
  rewrite fmap_cons. cbn [foldr]. by rewrite IH.
Qed.

Lemma wireOf_app fs1 fs2 : wireOf (fs1 ++ fs2) = wireOf fs1 ++ wireOf fs2.
Proof. unfold wireOf. by rewrite fmap_app, concat_app. Qed.

(** The item frames of a run on the stream: the client prints their
    envelopes, in order, and goes on with what follows. *)
Lemma readLoop_items w e async qqid query fs kept fuel rest :
  decodes w e →
  Forall2 (itemFrame w 1 qqid query) fs kept →
  client.readLoop e async false (length fs + fuel) (wireOf fs ++ rest)
  = foldr client.printed (client.readLoop e async false fuel rest)
      (client.Plain <$> omap envelope fs).
Proof.
  intros Hdec Hfs. induction Hfs as [|f v fs kept (b & Hm & ->) _ IH]; [done|].
  destruct (Hdec _ _ Hm) as (Hb & Hlen & Hu).
  change (wireOf (dataFrame QueryItem (respOf qqid query v) b :: fs))
    with (wire (dataFrame QueryItem (respOf qqid query v) b) ++ wireOf fs).
  rewrite <- app_assoc.
  change (length (dataFrame QueryItem (respOf qqid query v) b :: fs) + fuel)%nat
    with (S (length fs + fuel)).
  rewrite (readLoop_data_frame e async _ QueryItem _ (respOf qqid query v) b)
    by (done || by left).
  by rewrite IH.
Qed.

Lemma Tail_envelopes tail : Tail tail → omap envelope tail = [].
Proof. by destruct 1. Qed.

Lemma itemFrame_last w format qqid query fs kept :
  Forall2 (itemFrame w format qqid query) fs kept →
  last fs ≠ Some (writeStatus QueryDone).
Proof.
  intros Hfs Hl. apply last_Some_elem_of in Hl.
  destruct (itemFrame_items _ _ _ _ _ _ Hfs) as (_ & Hq & _).
  rewrite <- Hq in Hl. by apply list_elem_of_filter in Hl as [? _].
Qed.

(** X10: the frames of a run in the textual format, read back by the
    client in its synchronous mode: when the run ended with [QueryDone]
    the client prints exactly the envelopes the run wrote, in order, and
    stops at the terminator without reading what follows; when the run
    left without a terminator it prints them and finds the end of the
    stream.  Enough iterations of the loop give the result. *)
Theorem X10_client_reads_run `{GoStd} (w : World) (g : Globals) (cid : Z)
    (data : bytes) (e : client.Env) :
  decodes w e →
  (last (frames (Handle w g 1 cid data)) = Some (writeStatus QueryDone) →
   ∀ later, ∃ fuel,
     client.readLoop e false false fuel
       (wireOf (frames (Handle w g 1 cid data)) ++ later)
     = Some (client.Plain <$> omap envelope (frames (Handle w g 1 cid data)),
             client.StopDone))
  ∧ (last (frames (Handle w g 1 cid data)) ≠ Some (writeStatus QueryDone) →
     ∃ fuel,
       client.readLoop e false false fuel
         (wireOf (frames (Handle w g 1 cid data)))
       = Some (client.Plain <$> omap envelope (frames (Handle w g 1 cid data)),
               client.StopEOF)).
Proof.
  intros Hdec.
  destruct (Unmarshal w 1 data) as [req|] eqn:Hd.
  2:{ rewrite Handle_decode_error_frames by done.
      split; [done|]. intros _. by exists 1%nat. }
  destruct (Handle_shape w g 1 cid data req Hd)
    as (fs & kept & tail & -> & Ht & Hfs & _).
  rewrite omap_app, (Tail_envelopes _ Ht), app_nil_r, wireOf_app.
  pose proof (itemFrame_last _ _ _ _ _ _ Hfs) as Hlast.
  destruct Ht.
  - rewrite (app_nil_r fs). change (wireOf []) with (@nil Z).
    split; [done|]. intros _.
    exists (length fs + 1)%nat.
    rewrite (readLoop_items w e false _ _ fs kept 1 [] Hdec Hfs).
    change (client.readLoop e false false 1 [])
      with (Some ([] : list client.Line, client.StopEOF)).
    by rewrite foldr_printed, app_nil_r.
  - split; [|by rewrite last_snoc].
    intros _ later. exists (length fs + 1)%nat.
    rewrite <- app_assoc.
    rewrite (readLoop_items w e false _ _ fs kept 1 _ Hdec Hfs).
    change (wireOf [writeStatus QueryDone] ++ later)
      with (wire (writeStatus QueryDone) ++ later).
    rewrite readLoop_done_sync. by rewrite foldr_printed, app_nil_r.
  - split.
    + intros _ later. exists (length fs + 2)%nat.
      rewrite <- app_assoc.
      rewrite (readLoop_items w e false _ _ fs kept 2 _ Hdec Hfs).
      change (wireOf [writeStatus QueryNoResults; writeStatus QueryDone] ++ later)
        with (wire (writeStatus QueryNoResults)
              ++ wire (writeStatus QueryDone) ++ later).
      rewrite readLoop_empty, readLoop_done_sync.
      by rewrite foldr_printed, app_nil_r.
    + intros Hl. destruct Hl.
      change [writeStatus QueryNoResults; writeStatus QueryDone]
        with ([writeStatus QueryNoResults] ++ [writeStatus QueryDone]).
      by rewrite app_assoc, last_snoc.
Qed.

Lemma Wire_decodes req known stream :
  (length known < 256)%nat →
  decodes (Wire.world req known) (Wire.reader known stream).
Proof.
  intros Hk resp b Hm. simpl in Hm. unfold Wire.encode in Hm.
  destruct (list_find (λ r, r = resp) known) as [[i r]|] eqn:Hf; [|done].
  simpl in Hm. injection Hm as <-.
  apply list_find_Some in Hf as (Hi & -> & _).
  split; [done|]. split; [simpl; lia|].
  simpl. by rewrite Nat2Z.id.
Qed.

Lemma X10_client_reads_run_witness :
  let req := Demo.request ["websearch"] "q" 3 in
  let resp := respOf 1 "q" (Demo.item "websearch" "Google" 10) in
  ∃ fuel,
    client.readLoop (Wire.reader [resp] []) false false fuel
      (wireOf (frames (Handle (Wire.world req [resp]) (Demo.fresh 0) 1 7 []))
       ++ [9; 9; 9])
    = Some ([client.Plain resp], client.StopDone).
Proof.
  intros req resp.
  destruct (proj1 (X10_client_reads_run (Wire.world req [resp]) (Demo.fresh 0)
                     7 [] (Wire.reader [resp] [])
                     (Wire_decodes req [resp] [] ltac:(simpl; lia)))
              ltac:(vm_compute; reflexivity) [9; 9; 9]) as [fuel Hf].
  exists fuel. rewrite Hf. vm_compute. reflexivity.
Defined.

(** X11: an item pushed by [UpdateItem] after a query reaches a client
    that reads in its asynchronous mode: the client prints the envelopes
    of the query, passes over its terminator, and then prints the pushed
    item in an envelope whose qid is 0 and whose query is the one the
    provider gave, before it finds the end of the stream. *)
Theorem X11_async_update_read `{GoStd} (w : World) (g : Globals) (cid : Z)
    (data : bytes) (e : client.Env) (query : string) (item : Item)
    (f : Frame) :
  decodes w e →
  UpdateItem w 1 query item true = Updated f →
  opcode f = QueryAsyncItem
  ∧ envelope f = Some {| pb.Qid := 0; pb.RQuery := query; pb.Item := item |}
  ∧ ∃ fuel,
      client.readLoop e true false fuel
        (wireOf (frames (Handle w g 1 cid data)) ++ wire f)
      = Some (client.Plain
                <$> (omap envelope (frames (Handle w g 1 cid data))
                     ++ [{| pb.Qid := 0; pb.RQuery := query; pb.Item := item |}]),
              client.StopEOF).
Proof.
  intros Hdec Hu. unfold UpdateItem in Hu.
  set (upd := {| pb.Qid := 0; pb.RQuery := query; pb.Item := item |}) in *.
  destruct (Marshal w 1 upd) as [b|] eqn:Hm; [|done].
  injection Hu as <-. split; [done|]. split; [done|].
  destruct (Hdec _ _ Hm) as (Hb & Hlen & Hdecode).
  assert (Hlast : ∀ fuel,
            client.readLoop e true false (S (S fuel))
              (wire (dataFrame QueryAsyncItem upd b))
            = Some ([client.Plain upd], client.StopEOF)).
  { intros fuel.
    rewrite <- (app_nil_r (wire (dataFrame QueryAsyncItem upd b))).
    by rewrite (readLoop_data_frame e true _ QueryAsyncItem upd upd b [])
      by (done || by right). }
  destruct (Unmarshal w 1 data) as [req|] eqn:Hd.
  2:{ rewrite Handle_decode_error_frames by done. exists 2%nat. apply Hlast. }
  destruct (Handle_shape w g 1 cid data req Hd)
    as (fs & kept & tail & -> & Ht & Hfs & _).
  rewrite omap_app, (Tail_envelopes _ Ht), app_nil_r, wireOf_app.
  rewrite <- app_assoc.
  exists (length fs + 4)%nat.
  rewrite (readLoop_items w e true _ _ fs kept 4 _ Hdec Hfs).
  assert (Htail : client.readLoop e true false 4
                    (wireOf tail ++ wire (dataFrame QueryAsyncItem upd b))
                  = Some ([client.Plain upd], client.StopEOF)).
  { destruct Ht.
    - apply (Hlast 2%nat).
    - change (wireOf [writeStatus QueryDone] ++ ?r)
        with (wire (writeStatus QueryDone) ++ r).
      rewrite readLoop_done_async. apply (Hlast 1%nat).
    - change (wireOf [writeStatus QueryNoResults; writeStatus QueryDone] ++ ?r)
        with (wire (writeStatus QueryNoResults)
              ++ wire (writeStatus QueryDone) ++ r).
      rewrite readLoop_empty, readLoop_done_async. apply (Hlast 0%nat). }
  rewrite Htail, foldr_printed. by rewrite fmap_app.
Qed.

Lemma X11_async_update_read_witness :
  let req := Demo.request ["websearch"] "q" 3 in
  let resp := respOf 1 "q" (Demo.item "websearch" "Google" 10) in
  let upd := {| pb.Qid := 0; pb.RQuery := "q";
                pb.Item := Demo.item "bluetooth" "Headset" 0 |} in
  ∃ fuel,
    client.readLoop (Wire.reader [resp; upd] []) true false fuel
      (wireOf (frames (Handle (Wire.world req [resp; upd]) (Demo.fresh 0) 1 7 []))
       ++ wire (dataFrame QueryAsyncItem upd [123; 1]))
    = Some ([client.Plain resp; client.Plain upd], client.StopEOF).
Proof.
  intros req resp upd.
  destruct (X11_async_update_read (Wire.world req [resp; upd]) (Demo.fresh 0)
              7 [] (Wire.reader [resp; upd] []) "q"
              (Demo.item "bluetooth" "Headset" 0)
              (dataFrame QueryAsyncItem upd [123; 1])
              (Wire_decodes req [resp; upd] [] ltac:(simpl; lia))
              ltac:(vm_compute; reflexivity)) as (_ & _ & fuel & Hf).
  exists fuel. rewrite Hf. vm_compute. reflexivity.
Defined.

(** X12: the reading loop of the client does not end on a status frame
    whose length field is 2^32 - 5: the size of the message, [5 + length]
    in 32 bits, wraps to 0, nothing is consumed, and the same header is
    read again, whatever follows it; so on [QueryNoResults], and in the
    asynchronous mode on [QueryDone], no number of iterations gives a
    result. *)
Theorem X12_client_spins (e : client.Env) (async j : bool) (code : Z)
    (rest : bytes) (fuel : nat) :
  code = client.empty ∨ (code = client.done ∧ async = true) →
  client.readLoop e async j fuel ([code; 255; 255; 255; 251] ++ rest) = None.
Proof.
  intros Hcode. induction fuel as [|fuel IH]; [done|].
  destruct Hcode as [->|[-> ->]]; exact IH.
Qed.

Lemma X12_client_spins_witness :
  client.readLoop (Wire.reader [] []) false false 1000
    ([254; 255; 255; 255; 251] ++ [255; 0; 0; 0; 0]) = None.
Proof.
  apply (X12_client_spins (Wire.reader [] []) false false 254
           [255; 0; 0; 0; 0] 1000).
  left. reflexivity.
Defined.

(** ** Splitting and joining *)

Lemma Split_length s sep : length (strings.Split s sep) = S (countByte s sep).
Proof.
  induction s as [|c s IH]; simpl; [done|].
  destruct (Ascii.eqb c sep); simpl; [by rewrite IH|].
  destruct (strings.Split s sep); simpl in *; lia.
Qed.

Lemma Split_pieces s sep p :
  p ∈ strings.Split s sep → strings.ContainsByte p sep = false.
Proof.
  revert p. induction s as [|c s IH]; intros p; simpl.
  { intros ->%list_elem_of_singleton. done. }
  destruct (Ascii.eqb c sep) eqn:Hc.
  - intros [->|Hp]%elem_of_cons; [done|by apply IH].
  - destruct (strings.Split s sep) as [|q qs] eqn:Hs.
    + intros ->%list_elem_of_singleton. simpl. by rewrite Hc.
    + intros [->|Hp]%elem_of_cons.
      * simpl. rewrite Hc. apply IH. left.
      * apply IH. by right.
Qed.

Lemma Join_Split s sep :
  String.concat (String sep EmptyString) (strings.Split s sep) = s.
Proof.
  induction s as [|c s IH]; [done|].
  destruct (Split_nonempty s sep) as (p & ps & Hs).
  cbn [strings.Split]. rewrite Hs in *.
  destruct (Ascii.eqb_spec c sep) as [->|Hc].
  - change (String sep (String.concat (String sep EmptyString) (p :: ps))
            = String sep s).
    by rewrite IH.
  - destruct ps as [|p' ps].
    + change (String c (String.concat (String sep EmptyString) [p])
              = String c s).
      by rewrite IH.
    + change (String c (String.concat (String sep EmptyString) (p :: p' :: ps))
              = String c s).
      by rewrite IH.
Qed.

(** X13: the head of the client's [Query].  It panics for want of fields
    exactly when the argument holds fewer than two semicolons.  A request
    that is built has as query the field between the first two
    semicolons, so no query text with a semicolon can be sent; its
    provider names, joined by commas, are the first field as typed, which
    is not empty; and its [maxresults] is the number [Atoi] read in the
    third field, converted to 32 bits without any check of its range or
    sign. *)
Theorem X13_client_request (e : client.Env) (data : string) :
  (client.request e data = inl client.PanicFields
   ↔ (countByte data ";" < 2)%nat)
  ∧ ∀ req, client.request e data = inr req →
      pb.Query req = default "" (strings.Split data ";" !! 1%nat)
      ∧ strings.ContainsByte (pb.Query req) ";" = false
      ∧ String.concat "," (pb.Providers req)
        = default "" (strings.Split data ";" !! 0%nat)
      ∧ String.concat "," (pb.Providers req) ≠ ""
      ∧ ∃ n, client.Atoi e (default "" (strings.Split data ";" !! 2%nat)) = Some n
             ∧ pb.Maxresults req = int32 n.
Proof.
  unfold client.request.
  pose proof (Split_length data ";") as Hlen.
  destruct (Nat.ltb_spec (length (strings.Split data ";")) 3) as [Hlt|Hge].
  { split; [split; [intros _; lia|done]|done]. }
  split.
  { split; [|lia]. destruct (client.Atoi e _); [|done].
    by destruct (_ || _). }
  intros req.
  destruct (client.Atoi e (default "" (strings.Split data ";" !! 2%nat)))
    as [n|] eqn:Hn; [|done].
  set (field0 := default "" (strings.Split data ";" !! 0%nat)).
  destruct (bool_decide (length (strings.Split field0 ",") = 0%nat)
            || bool_decide (length (strings.Split field0 ",") = 1%nat)
               && String.eqb (default "" (strings.Split field0 "," !! 0%nat)) "")
    eqn:Hp; [done|].
  intros [= <-]. simpl.
  split; [done|]. split.
  { destruct (strings.Split data ";" !! 1%nat) as [q|] eqn:Hq; [|done].
    simpl. eapply Split_pieces. by eapply list_elem_of_lookup_2. }
  split; [apply (Join_Split field0 ",")|].
  split; [|by exists n].
  rewrite (Join_Split field0 ","). intros H0.
  rewrite H0 in Hp. by vm_compute in Hp.
Qed.

Lemma X13_client_request_witness :
  let data := "files,websearch;g cats;5;true" in
  let req := {| pb.Providers := ["files"; "websearch"]; pb.Query := "g cats";
                pb.Maxresults := 5; pb.Exactsearch := true |} in
  client.request (Wire.reader [] []) data = inr req
  ∧ strings.ContainsByte (pb.Query req) ";" = false
  ∧ String.concat "," (pb.Providers req) = "files,websearch".
Proof.
  intros data req.
  assert (Hr : client.request (Wire.reader [] []) data = inr req)
    by (vm_compute; reflexivity).
  destruct (proj2 (X13_client_request (Wire.reader [] []) data) req Hr)
    as (_ & Hq & Hp & _).
  split; [exact Hr|]. split; [exact Hq|]. rewrite Hp. vm_compute. reflexivity.
Defined.

(** * The websearch provider *)

(** X14: the comparator [Setup] sorts its engines with does not meet the
    contract of [slices.SortFunc]: swapping its arguments reverses its
    sign exactly when the two engines are not both default, so two default
    engines, or a default engine and itself, each come before the other;
    only its transitivity holds. *)
Theorem X14_engine_comparator :
  (∀ a b, Z.sgn (websearch.engineCmp b a) = - Z.sgn (websearch.engineCmp a b)
          ↔ ¬ (websearch.Default a = true ∧ websearch.Default b = true))
  ∧ (∀ a b c, websearch.engineCmp a b ≤ 0 → websearch.engineCmp b c ≤ 0 →
              websearch.engineCmp a c ≤ 0)
  ∧ ¬ StrictWeak websearch.engineCmp.
Proof.
  split; [|split].
  - intros a b. unfold websearch.engineCmp.
    destruct (websearch.Default a), (websearch.Default b); simpl;
      split; try done; try (intros Hn; destruct Hn; done); intros _ [? ?]; done.
  - intros a b c. unfold websearch.engineCmp.
    destruct (websearch.Default a), (websearch.Default b),
      (websearch.Default c); lia.
  - intros [Hanti _]. specialize (Hanti websearch.google websearch.google).
    by vm_compute in Hanti.
Qed.

Lemma X14_engine_comparator_witness :
  websearch.engineCmp websearch.google websearch.google ≤ 0.
Proof.
  apply (proj1 (proj2 X14_engine_comparator)
           websearch.google websearch.google websearch.google);
    by vm_compute.
Defined.

Lemma register_slots k engines slots pfx ws :
  (websearch.register k engines (slots, pfx, ws)).1.1
  = slots
    + Z.of_nat (length (filter (λ v, websearch.Default v = true) engines)).
Proof.
  revert k slots pfx ws.
  induction engines as [|v rest IH]; intros k slots pfx ws; simpl; [lia|].
  destruct (negb (String.eqb (websearch.Prefix v) "")); rewrite IH;
    (destruct (websearch.Default v) eqn:Hd;
     [rewrite filter_cons_True by done; simpl; lia
     |rewrite filter_cons_False by (by rewrite Hd); lia]).
Qed.

Lemma collect_length_default c k engines :
  length (websearch.collect (websearch.defaultEntry c "") k engines)
  = length (filter (λ v, websearch.Default v = true) engines).
Proof.
  revert k. induction engines as [|v rest IH]; intros k; simpl; [done|].
  unfold websearch.defaultEntry at 1. simpl. rewrite orb_false_r.
  destruct (websearch.Default v) eqn:Hd.
  - rewrite filter_cons_True by done. simpl. by rewrite IH.
  - rewrite filter_cons_False by (by rewrite Hd). apply IH.
Qed.

Lemma collect_elem_of body k engines item :
  item ∈ websearch.collect body k engines →
  ∃ i v, engines !! i = Some v ∧ body (k + i)%nat v = Some item.
Proof.
  revert k. induction engines as [|v rest IH]; intros k; simpl.
  { by intros ?%elem_of_nil. }
  destruct (body k v) as [e|] eqn:Hb.
  - intros [->|Hin]%elem_of_cons.
    + exists 0%nat, v. by rewrite Nat.add_0_r.
    + destruct (IH _ Hin) as (i & v' & Hl & Hb').
      exists (S i), v'. split; [done|]. by rewrite Nat.add_succ_r.
  - intros Hin. destruct (IH _ Hin) as (i & v' & Hl & Hb').
    exists (S i), v'. split; [done|]. by rewrite Nat.add_succ_r.
Qed.

Lemma collect_elem_of_2 body k engines i v item :
  engines !! i = Some v → body (k + i)%nat v = Some item →
  item ∈ websearch.collect body k engines.
Proof.
  revert k i. induction engines as [|v0 rest IH]; intros k i Hl Hb; [done|].
  simpl. destruct i as [|i].
  - injection Hl as ->. rewrite Nat.add_0_r in Hb. rewrite Hb. left.
  - simpl in Hl. rewrite Nat.add_succ_r in Hb.
    specialize (IH (S k) i Hl Hb).
    destruct (body k v0); [by right|done].
Qed.

Lemma matched_none order query :
  (∀ k, k ∈ order → strings.HasPrefix query k = false) →
  websearch.matched order query = "".
Proof.
  intros Hn. unfold websearch.matched.
  assert (Hf : filter (λ k, strings.HasPrefix query k = true) order = []).
  { induction order as [|k order IH]; [done|].
    rewrite filter_cons_False by (rewrite (Hn k) by left; done).
    apply IH. intros k' Hk'. apply Hn. by right. }
  by rewrite Hf.
Qed.

Lemma normalize_small engines :
  (length engines ≤ 1)%nat →
  ∃ v, websearch.normalize engines = [v] ∧ websearch.Default v = true.
Proof.
  destruct engines as [|v [|v' rest]]; simpl; intros Hl; [| |lia].
  - by exists websearch.google.
  - by exists (websearch.setDefault v).
Qed.

(** X15: the slots and the default engines.  After [Setup] in a process
    that counted no slot yet, the number of slots is the number of items
    websearch contributes to a query to several providers that starts
    with no registered prefix; each such item carries the provider name
    [websearch] and the name of a default engine; and a configuration of
    at most one engine gives exactly one slot. *)
Theorem X15_slots_are_default_items `{GoStd}
    (LoadConfig : websearch.Config → websearch.Config) (pretty0 : string)
    (ws0 : gmap string string) (pfx0 : gmap string nat)
    (e : websearch.Env) (order : list string) (query : string) (exact : bool) :
  websearch.EnginesAsActions (LoadConfig websearch.defaults) = false →
  (∀ k, k ∈ order → strings.HasPrefix query k = false) →
  let r := websearch.Setup LoadConfig pretty0 0 ws0 pfx0 in
  let items := websearch.Query e (websearch.state r) order query false exact in
  Z.of_nat (length items) = websearch.maxGlobal r
  ∧ (∀ item, item ∈ items →
       pb.Provider item = "websearch"
       ∧ ∃ v, v ∈ websearch.normalize
                    (websearch.Engines (LoadConfig websearch.defaults))
              ∧ websearch.Default v = true
              ∧ pb.Text item = websearch.EName v)
  ∧ ((length (websearch.Engines (LoadConfig websearch.defaults)) ≤ 1)%nat →
     websearch.maxGlobal r = 1).
Proof.
  intros Ha Hn r items.
  set (c := LoadConfig websearch.defaults) in *.
  set (engines := websearch.normalize (websearch.Engines c)).
  pose proof (register_slots 0 engines 0 pfx0 ws0) as Hs.
  assert (Hr : websearch.maxGlobal r
               = Z.of_nat (length (filter (λ v, websearch.Default v = true)
                                     engines))).
  { unfold r, websearch.Setup. fold c. fold engines.
    destruct (websearch.register 0 engines (0, pfx0, ws0)) as [[s p] w'].
    simpl in *. lia. }
  assert (Hi : items
               = websearch.collect
                   (websearch.defaultEntry
                      (websearch.withEngines c
                         (SortFunc websearch.engineCmp engines)) "")
                   0 (SortFunc websearch.engineCmp engines)).
  { unfold items, r, websearch.Setup, websearch.Query. fold c. fold engines.
    destruct (websearch.register 0 engines (0, pfx0, ws0)) as [[s p] w'].
    simpl. rewrite Ha. simpl. by rewrite (matched_none order query Hn). }
  split; [|split].
  - rewrite Hr, Hi, collect_length_default.
    by rewrite (SortFunc_Permutation _ websearch.engineCmp engines).
  - intros item Hin. rewrite Hi in Hin.
    destruct (collect_elem_of _ _ _ _ Hin) as (i & v & Hl & Hb).
    unfold websearch.defaultEntry in Hb. simpl in Hb.
    rewrite orb_false_r in Hb.
    destruct (websearch.Default v) eqn:Hd; [|done].
    injection Hb as <-. split; [done|]. exists v.
    split; [|done].
    apply list_elem_of_lookup_2 in Hl.
    by rewrite (SortFunc_Permutation _ websearch.engineCmp engines) in Hl.
  - intros Hsmall. rewrite Hr.
    destruct (normalize_small _ Hsmall) as (v & Hv & Hd).
    unfold engines. rewrite Hv. by rewrite filter_cons_True.
Qed.

Lemma X15_slots_are_default_items_witness :
  let r := websearch.Setup (λ c, c) "Websearch" 0 ∅ ∅ in
  Z.of_nat (length (websearch.Query WebDemo.env (websearch.state r) []
                      "cats" false false)) = websearch.maxGlobal r
  ∧ websearch.maxGlobal r = 1.
Proof.
  intros r.
  destruct (X15_slots_are_default_items (λ c, c) "Websearch" ∅ ∅ WebDemo.env
              [] "cats" false eq_refl) as (Hl & _ & H1).
  - intros k Hk. by apply elem_of_nil in Hk.
  - split; [exact Hl|]. apply H1. simpl. lia.
Defined.

Lemma register_ws_lookup k engines slots pfx ws p n :
  (websearch.register k engines (slots, pfx, ws)).2 !! p = Some n →
  ws !! p = Some n
  ∨ ∃ v, v ∈ engines ∧ websearch.Prefix v = p ∧ p ≠ ""
         ∧ websearch.EName v = n.
Proof.
  revert k slots pfx ws.
  induction engines as [|v rest IH]; intros k slots pfx ws; simpl; [by left|].
  destruct (String.eqb_spec (websearch.Prefix v) "") as [He|Hne]; simpl.
  - intros Hl. destruct (IH _ _ _ _ Hl) as [?|(v' & Hin & ?)]; [by left|].
    right. exists v'. split; [by right|done].
  - intros Hl. destruct (IH _ _ _ _ Hl) as [Hw|(v' & Hin & ?)].
    + destruct (decide (websearch.Prefix v = p)) as [<-|Hp].
      * rewrite lookup_insert_eq in Hw. injection Hw as <-.
        right. exists v. split; [left|done].
      * rewrite lookup_insert_ne in Hw by done. by left.
    + right. exists v'. split; [by right|done].
Qed.

Lemma register_pfx_lookup k engines slots pfx ws p i :
  (websearch.register k engines (slots, pfx, ws)).1.2 !! p = Some i →
  pfx !! p = Some i
  ∨ ∃ v, v ∈ engines ∧ websearch.Prefix v = p ∧ p ≠ "".
Proof.
  revert k slots pfx ws.
  induction engines as [|v rest IH]; intros k slots pfx ws; simpl; [by left|].
  destruct (String.eqb_spec (websearch.Prefix v) "") as [He|Hne]; simpl.
  - intros Hl. destruct (IH _ _ _ _ Hl) as [?|(v' & Hin & ?)]; [by left|].
    right. exists v'. split; [by right|done].
  - intros Hl. destruct (IH _ _ _ _ Hl) as [Hw|(v' & Hin & ?)].
    + destruct (decide (websearch.Prefix v = p)) as [<-|Hp].
      * right. exists v. split; [left|done].
      * rewrite lookup_insert_ne in Hw by done. by left.
    + right. exists v'. split; [by right|done].
Qed.

Lemma register_registered k engines slots pfx ws v :
  v ∈ engines → websearch.Prefix v ≠ "" →
  is_Some ((websearch.register k engines (slots, pfx, ws)).1.2
             !! websearch.Prefix v)
  ∧ is_Some ((websearch.register k engines (slots, pfx, ws)).2
               !! websearch.Prefix v).
Proof.
  assert (Hkeep : ∀ engines k slots pfx ws p,
            is_Some (pfx !! p) → is_Some (ws !! p) →
            is_Some ((websearch.register k engines (slots, pfx, ws)).1.2 !! p)
            ∧ is_Some ((websearch.register k engines (slots, pfx, ws)).2 !! p)).
  { clear. induction engines as [|v rest IH]; intros k slots pfx ws p Hp Hw;
      simpl; [done|].
    destruct (negb (String.eqb (websearch.Prefix v) "")); simpl;
      apply IH; try done.
    - destruct (decide (websearch.Prefix v = p)) as [<-|?];
        [by rewrite lookup_insert_eq|by rewrite lookup_insert_ne].
    - destruct (decide (websearch.Prefix v = p)) as [<-|?];
        [by rewrite lookup_insert_eq|by rewrite lookup_insert_ne]. }
  revert k slots pfx ws.
  induction engines as [|v0 rest IH]; intros k slots pfx ws Hin Hne.
  { by apply elem_of_nil in Hin. }
  simpl. apply elem_of_cons in Hin as [->|Hin].
  - destruct (String.eqb_spec (websearch.Prefix v0) "") as [?|_]; [done|].
    simpl. apply Hkeep; by rewrite lookup_insert_eq.
  - destruct (negb (String.eqb (websearch.Prefix v0) "")); simpl; by apply IH.
Qed.

Lemma head_filter_all {A : Type} (P : A → Prop) `{!∀ x, Decision (P x)}
    (l : list A) (x : A) :
  x ∈ l → P x → (∀ y, y ∈ l → P y → y = x) → head (filter P l) = Some x.
Proof.
  intros Hin HP Hall.
  assert (Hf : x ∈ filter P l) by by apply list_elem_of_filter.
  destruct (filter P l) as [|y ys] eqn:Hfl; [by apply elem_of_nil in Hf|].
  simpl. f_equal.
  assert (Hy : y ∈ filter P l) by (rewrite Hfl; left).
  apply list_elem_of_filter in Hy as [HPy Hyl]. by apply Hall.
Qed.

(** X16: the engine addressed by a prefix is shown.  After [Setup] in a
    fresh process, for a query to several providers that starts with the
    prefix of engine [v] and with the prefix of no engine of another name
    or prefix, the hint the handler computes is the name of [v], websearch
    returns an item with that name as text, and the handler's suppression
    test lets this item through whatever the flag. *)
Theorem X16_prefix_engine_shown `{GoStd}
    (LoadConfig : websearch.Config → websearch.Config) (pretty0 : string)
    (slots0 : Z) (e : websearch.Env) (order : list string) (g : Globals)
    (req : pb.QueryRequest) (v : websearch.Engine) (exact : bool) :
  let c := LoadConfig websearch.defaults in
  let r := websearch.Setup LoadConfig pretty0 slots0 ∅ ∅ in
  websearch.EnginesAsActions c = false →
  published r g →
  (∀ k, k ∈ order ↔ is_Some (websearch.prefixes (websearch.state r) !! k)) →
  v ∈ websearch.normalize (websearch.Engines c) →
  websearch.Prefix v ≠ "" →
  strings.HasPrefix (pb.Query req) (websearch.Prefix v) = true →
  (∀ v', v' ∈ websearch.normalize (websearch.Engines c) →
         websearch.Prefix v' ≠ "" →
         strings.HasPrefix (pb.Query req) (websearch.Prefix v') = true →
         websearch.Prefix v' = websearch.Prefix v
         ∧ websearch.EName v' = websearch.EName v) →
  "websearch" ∈ pb.Providers req →
  wsprefixOf g req = websearch.EName v
  ∧ ∃ item,
      item ∈ websearch.Query e (websearch.state r) order (pb.Query req)
               false exact
      ∧ pb.Text item = websearch.EName v
      ∧ pb.Provider item = "websearch"
      ∧ ∀ hide, suppressed hide (wsprefixOf g req) item = false.
Proof.
  intros c r Ha (_ & _ & Hpub) Horder Hv Hne Hq Huniq Hws.
  set (engines := websearch.normalize (websearch.Engines c)) in *.
  set (query := pb.Query req) in *.
  assert (Hr : ∃ s pfx ws,
            websearch.register 0 engines (slots0, ∅, ∅) = (s, pfx, ws)
            ∧ websearch.prefixes (websearch.state r) = pfx
            ∧ websearch.wsPrefixes r = ws
            ∧ websearch.config (websearch.state r)
              = websearch.withEngines c (SortFunc websearch.engineCmp engines)).
  { unfold r, websearch.Setup. fold c. fold engines.
    destruct (websearch.register 0 engines (slots0, ∅, ∅)) as [[s p] w'].
    by exists s, p, w'. }
  destruct Hr as (s & pfx & ws & Hreg & Hpfx & Hwsp & Hcfg).
  rewrite Hpfx in Horder. rewrite Hwsp in Hpub.
  pose proof (register_registered 0 engines slots0 ∅ ∅ v Hv Hne) as [Hp1 Hp2].
  rewrite Hreg in Hp1, Hp2. simpl in Hp1, Hp2.
  assert (Hwsall : ∀ k n, ws !! k = Some n →
            strings.HasPrefix query k = true → n = websearch.EName v).
  { intros k n Hk Hm.
    pose proof (register_ws_lookup 0 engines slots0 ∅ ∅ k n) as Hl.
    rewrite Hreg in Hl. destruct (Hl Hk) as [Hl'|(v' & Hin & <- & Hk' & <-)].
    - by rewrite lookup_empty in Hl'.
    - by destruct (Huniq v' Hin Hk' Hm). }
  assert (Hhint : wsprefixOf g req = websearch.EName v).
  { unfold wsprefixOf.
    rewrite (proj2 (Contains_elem_of _ _) Hws).
    destruct Hp2 as [n Hn].
    pose proof (Hwsall _ _ Hn Hq) as ->.
    apply (lastPrefix_agreed _ _ "" (websearch.Prefix v)).
    - rewrite Hpub. by apply elem_of_map_to_list.
    - done.
    - intros k' n' Hin Hm. rewrite Hpub in Hin.
      apply elem_of_map_to_list in Hin. by eapply Hwsall. }
  split; [done|].
  assert (Hmatched : websearch.matched order query = websearch.Prefix v).
  { unfold websearch.matched.
    rewrite (head_filter_all _ order (websearch.Prefix v)); [done| |done|].
    - by apply Horder.
    - intros k Hk Hm. apply Horder in Hk as [i Hi].
      pose proof (register_pfx_lookup 0 engines slots0 ∅ ∅ k i) as Hl.
      rewrite Hreg in Hl. destruct (Hl Hi) as [Hl'|(v' & Hin & <- & Hk')].
      + by rewrite lookup_empty in Hl'.
      + by destruct (Huniq v' Hin Hk' Hm). }
  assert (Hsorted : v ∈ SortFunc websearch.engineCmp engines)
    by by rewrite (SortFunc_Permutation _ websearch.engineCmp engines).
  apply list_elem_of_lookup in Hsorted as [i Hi].
  set (c' := websearch.withEngines c (SortFunc websearch.engineCmp engines)).
  set (item := {| pb.Identifier := websearch.Itoa i;
                  pb.Text := websearch.EName v; pb.Subtext := "";
                  pb.Icon := websearch.iconOf c' v;
                  pb.Provider := websearch.Name;
                  pb.Score := int32 (15 - Z.of_nat i);
                  pb.Actions := ["search"]; pb.State := [] |}).
  exists item. split; [|split; [done|split; [done|]]].
  - unfold websearch.Query. rewrite Hcfg. fold c'.
    change (websearch.EnginesAsActions c') with (websearch.EnginesAsActions c).
    rewrite Ha. simpl. rewrite Hmatched.
    apply (collect_elem_of_2 _ 0 _ i v); [done|].
    unfold websearch.defaultEntry. simpl.
    rewrite String.eqb_refl.
    destruct (String.eqb_spec (websearch.Prefix v) "") as [?|_]; [done|].
    simpl. by rewrite orb_true_r.
  - intros hide. unfold suppressed. rewrite Hhint. simpl.
    rewrite String.eqb_refl. by rewrite andb_false_r.
Qed.

Lemma X16_prefix_engine_shown_witness :
  let r := websearch.Setup WebDemo.load "Websearch" 0 ∅ ∅ in
  let g := {| queries := ∅; MaxGlobalItemsToDisplayWebsearch := 1;
              WebsearchAlwaysShow := true;
              WebsearchPrefixes := [("yt ", "YouTube")];
              qid := 0; contexts := 0; cancelled := ∅ |} in
  let req := Demo.request ["files"; "websearch"] "yt cats" 10 in
  wsprefixOf g req = "YouTube"
  ∧ ∃ item,
      item ∈ websearch.Query WebDemo.env (websearch.state r) ["yt "]
               "yt cats" false false
      ∧ pb.Text item = "YouTube"
      ∧ pb.Provider item = "websearch"
      ∧ ∀ hide, suppressed hide (wsprefixOf g req) item = false.
Proof.
  intros r g req.
  assert (Hp : websearch.prefixes (websearch.state r) = {["yt " := 1%nat]})
    by (vm_compute; reflexivity).
  assert (Hw : websearch.wsPrefixes r = {["yt " := "YouTube"]})
    by (vm_compute; reflexivity).
  unfold r in Hp, Hw.
  apply (X16_prefix_engine_shown WebDemo.load "Websearch" 0 WebDemo.env
           ["yt "] g req WebDemo.youtube false).
  - reflexivity.
  - split; [reflexivity|]. split; [reflexivity|].
    rewrite Hw, map_to_list_singleton. reflexivity.
  - intros k. rewrite Hp. rewrite list_elem_of_singleton. split.
    + intros ->. by rewrite lookup_singleton_eq.
    + intros [i Hi]. by apply lookup_singleton_Some in Hi as [<- _].
  - right. left.
  - discriminate.
  - reflexivity.
  - intros v' Hin Hne Hq. apply list_elem_of_In in Hin.
    destruct Hin as [<-|[<-|[]]]; [by destruct Hne|done].
  - right. left.
Defined.

Lemma singleEntry_provider e c query exact k v item :
  websearch.singleEntry e c query exact k v = Some item →
  pb.Provider item = "websearch".
Proof.
  unfold websearch.singleEntry.
  destruct (_ || _); [|done]. by intros [= <-].
Qed.

Lemma defaultEntry_provider c prefix k v item :
  websearch.defaultEntry c prefix k v = Some item →
  pb.Provider item = "websearch".
Proof.
  unfold websearch.defaultEntry.
  destruct (_ || _); [|done]. by intros [= <-].
Qed.

(** X17: websearch is never silent when it has a default engine, and it
    signs what it returns: whatever the query and the mode, every item
    carries the provider name [websearch], which is what the handler's
    suppression looks for; and with engines as actions, or with at least
    one default engine, the result is not empty. *)
Theorem X17_websearch_never_silent (e : websearch.Env) (st : websearch.State)
    (order : list string) (query : string) (single exact : bool) :
  Forall (λ item, pb.Provider item = "websearch")
    (websearch.Query e st order query single exact)
  ∧ (websearch.EnginesAsActions (websearch.config st) = true
     ∨ (∃ v, v ∈ websearch.Engines (websearch.config st)
             ∧ websearch.Default v = true) →
     websearch.Query e st order query single exact ≠ []).
Proof.
  unfold websearch.Query.
  set (c := websearch.config st).
  set (first := websearch.collect (websearch.singleEntry e c query exact) 0
                  (websearch.Engines c)).
  set (second := websearch.collect
                   (websearch.defaultEntry c (websearch.matched order query)) 0
                   (websearch.Engines c)).
  assert (H1 : Forall (λ item, pb.Provider item = "websearch") first).
  { apply Forall_forall. intros item Hin.
    destruct (collect_elem_of _ _ _ _ Hin) as (i & v & _ & Hb).
    by eapply singleEntry_provider. }
  assert (H2 : Forall (λ item, pb.Provider item = "websearch") second).
  { apply Forall_forall. intros item Hin.
    destruct (collect_elem_of _ _ _ _ Hin) as (i & v & _ & Hb).
    by eapply defaultEntry_provider. }
  assert (H3 : (∃ v, v ∈ websearch.Engines c ∧ websearch.Default v = true) →
               second ≠ []).
  { intros (v & Hin & Hd) Hnil.
    apply list_elem_of_lookup in Hin as [i Hi].
    assert (Hin : ∃ item, item ∈ second).
    { eexists. apply (collect_elem_of_2 _ 0 _ i v); [done|].
      unfold websearch.defaultEntry. by rewrite Hd. }
    destruct Hin as [item Hin]. rewrite Hnil in Hin.
    by apply elem_of_nil in Hin. }
  destruct (websearch.EnginesAsActions c) eqn:Ha.
  { split; [by repeat constructor|done]. }
  destruct single; simpl.
  - case_bool_decide as Hl; simpl.
    + split; [by apply Forall_app|]. intros [?|Hv]; [done|].
      intros [_ ?]%app_eq_nil. by apply H3.
    + split; [done|]. intros _ Hn. by rewrite Hn in Hl.
  - split; [done|]. intros [?|Hv]; [done|]. by apply H3.
Qed.

Lemma X17_websearch_never_silent_witness :
  let r := websearch.Setup (λ c, c) "Websearch" 0 ∅ ∅ in
  websearch.Query WebDemo.env (websearch.state r) [] "zzz" true false ≠ [].
Proof.
  intros r.
  apply (proj2 (X17_websearch_never_silent WebDemo.env (websearch.state r)
                  [] "zzz" true false)).
  right. exists websearch.google. split; [|reflexivity].
  apply list_elem_of_In. vm_compute. left. reflexivity.
Defined.

Lemma int32_signed n : - 2 ^ 31 ≤ n < 2 ^ 31 → int32 n = n.
Proof. intros Hn. unfold int32. rewrite Z.mod_small; lia. Qed.

(** * The vscodeprojects provider *)

Lemma fuzzyScan_spec e q exact vals best0 s0 st0 :
  let r := vscodeprojects.fuzzyScan e q exact vals best0 s0 st0 in
  s0 ≤ r.1.2
  ∧ (∀ v, v ∈ vals → int32 (vscodeprojects.FuzzyScore e q v exact).1 ≤ r.1.2)
  ∧ (r = (best0, s0, st0)
     ∨ (r.1.1 ∈ vals ∧ s0 < r.1.2
        ∧ r.1.2 = int32 (vscodeprojects.FuzzyScore e q r.1.1 exact).1
        ∧ r.2 = int32 (vscodeprojects.FuzzyScore e q r.1.1 exact).2)).
Proof.
  revert best0 s0 st0.
  induction vals as [|v rest IH]; intros best0 s0 st0; simpl.
  { split; [lia|]. split; [by intros ? ?%elem_of_nil|by left]. }
  destruct (vscodeprojects.FuzzyScore e q v exact) as [score start] eqn:Hv.
  destruct (Z.gtb_spec (int32 score) s0) as [Hgt|Hle].
  - destruct (IH v (int32 score) (int32 start)) as (Hmono & Hall & Hcase).
    split; [lia|]. split.
    + intros v' [->|Hin]%elem_of_cons; [by rewrite Hv|by apply Hall].
    + right. destruct Hcase as [->|(Hin & Hlt & Hs & Hst)].
      * simpl. rewrite Hv. split; [left|done].
      * split; [by right|]. split; [lia|done].
  - destruct (IH best0 s0 st0) as (Hmono & Hall & Hcase).
    split; [done|]. split.
    + intros v' [->|Hin]%elem_of_cons; [rewrite Hv; simpl; lia|by apply Hall].
    + destruct Hcase as [->|(Hin & Hlt & Hs & Hst)]; [by left|].
      right. split; [by right|done].
Qed.

Lemma fuzzyBest_None e q vals exact :
  vscodeprojects.fuzzyBest e q vals exact = None
  ↔ ∀ v, v ∈ vals → int32 (vscodeprojects.FuzzyScore e q v exact).1 ≤ 0.
Proof.
  unfold vscodeprojects.fuzzyBest.
  destruct (fuzzyScan_spec e q exact vals "" 0 0) as (Hmono & Hall & Hcase).
  destruct (vscodeprojects.fuzzyScan e q exact vals "" 0 0)
    as [[best s] st]. simpl in *.
  destruct (Z.eqb_spec s 0) as [->|Hne].
  - split; [by intros _|done].
  - split; [done|]. intros Hno.
    destruct Hcase as [[= _ ? _]|(Hin & Hlt & Hs & _)]; [done|].
    specialize (Hno best Hin). lia.
Qed.

(** X18: [fuzzyBest] finds nothing exactly when no value scores above
    zero; what it finds is one of the values, no other value scores
    higher, its score is positive, and the score reported is that score
    less the start of the match, in 32 bits, but never less than 10. *)
Theorem X18_fuzzyBest (e : vscodeprojects.Env) (q : string)
    (vals : list string) (exact : bool) :
  (vscodeprojects.fuzzyBest e q vals exact = None
   ↔ ∀ v, v ∈ vals → int32 (vscodeprojects.FuzzyScore e q v exact).1 ≤ 0)
  ∧ ∀ best score start,
      vscodeprojects.fuzzyBest e q vals exact = Some (best, score, start) →
      best ∈ vals
      ∧ 0 < int32 (vscodeprojects.FuzzyScore e q best exact).1
      ∧ (∀ v, v ∈ vals →
           int32 (vscodeprojects.FuzzyScore e q v exact).1
           ≤ int32 (vscodeprojects.FuzzyScore e q best exact).1)
      ∧ start = int32 (vscodeprojects.FuzzyScore e q best exact).2
      ∧ score = Z.max 10
                  (int32 (int32 (vscodeprojects.FuzzyScore e q best exact).1
                          - start))
      ∧ 10 ≤ score.
Proof.
  split; [apply fuzzyBest_None|].
  unfold vscodeprojects.fuzzyBest.
  destruct (fuzzyScan_spec e q exact vals "" 0 0) as (Hmono & Hall & Hcase).
  destruct (vscodeprojects.fuzzyScan e q exact vals "" 0 0)
    as [[best s] st]. simpl in *.
  destruct (Z.eqb_spec s 0) as [->|Hne]; [done|].
  intros best' score start [= <- <- <-].
  destruct Hcase as [[= _ ? _]|(Hin & Hlt & Hs & Hst)]; [done|].
  rewrite <- Hs, <- Hst. repeat split; try done; try lia.
  all: unfold vscodeprojects.max;
    destruct (Z.gtb_spec (int32 (s - st)) 10); lia.
Qed.

Lemma X18_fuzzyBest_witness :
  let e := {| vscodeprojects.FuzzyScore := λ _ v _,
                if String.eqb v "elephant" then (40, 35) else (0, 0);
              vscodeprojects.Base := λ p, p |} in
  vscodeprojects.fuzzyBest e "ele" ["elephant"; "/home/me/elephant"] false
  = Some ("elephant", 10, 35)
  ∧ 10 ≤ 10.
Proof.
  intros e.
  assert (Hb : vscodeprojects.fuzzyBest e "ele"
                 ["elephant"; "/home/me/elephant"] false
               = Some ("elephant", 10, 35)) by (vm_compute; reflexivity).
  destruct (proj2 (X18_fuzzyBest e "ele" ["elephant"; "/home/me/elephant"]
                     false) _ _ _ Hb) as (_ & _ & _ & _ & _ & H10).
  split; [exact Hb|exact H10].
Defined.

Lemma scan_length e c query exact i n entries :
  (length (vscodeprojects.scan e c query exact i n entries)
   ≤ Nat.max 1 (Z.to_nat (vscodeprojects.MaxEntries c) - n))%nat.
Proof.
  revert i n. induction entries as [|p rest IH]; intros i n; simpl; [lia|].
  destruct (_ || _).
  - destruct (Z.leb_spec (vscodeprojects.MaxEntries c) (Z.of_nat (S n)))
      as [Hle|Hgt]; simpl; [lia|].
    specialize (IH (S i) (S n)). lia.
  - specialize (IH (S i) n). lia.
Qed.

Lemma scan_sublist e c query exact i n entries :
  pb.Subtext <$> vscodeprojects.scan e c query exact i n entries
  `sublist_of` vscodeprojects.Path <$> entries.
Proof.
  revert i n. induction entries as [|p rest IH]; intros i n; simpl; [done|].
  destruct (_ || _).
  - destruct (_ <=? _); simpl.
    + apply sublist_skip, sublist_nil_l.
    + apply sublist_skip, IH.
  - apply sublist_cons, IH.
Qed.

Lemma scan_empty_query e c exact i n entries :
  vscodeprojects.scan e c "" exact i n entries
  = take (Nat.max 1 (Z.to_nat (vscodeprojects.MaxEntries c) - n))
      (imap (λ j p, vscodeprojects.itemAt e c "" exact (i + j) p) entries).
Proof.
  revert i n. induction entries as [|p rest IH]; intros i n.
  { simpl. by destruct (Nat.max _ _). }
  cbn [vscodeprojects.scan imap]. rewrite Nat.add_0_r.
  change (String.eqb "" "" || _) with true. cbv iota.
  destruct (Z.leb_spec (vscodeprojects.MaxEntries c) (Z.of_nat (S n)))
    as [Hle|Hgt].
  - replace (Nat.max 1 (Z.to_nat (vscodeprojects.MaxEntries c) - n))
      with 1%nat by lia.
    by rewrite firstn_cons, take_0.
  - replace (Nat.max 1 (Z.to_nat (vscodeprojects.MaxEntries c) - n))
      with (S (Nat.max 1 (Z.to_nat (vscodeprojects.MaxEntries c) - S n)))
      by lia.
    rewrite firstn_cons, IH. do 2 f_equal.
    apply imap_ext. intros j p' _. simpl. f_equal. lia.
Qed.

(** X19: the cap of [Query] on the number of entries bites one item
    late.  The result never has more than [MaxEntries] items, but at least
    room for one, so a [MaxEntries] of zero or less still returns an item;
    its items follow the order of the recent entries; and for the empty
    query it is the first entries, up to that number, each with its
    recency score. *)
Theorem X19_vscodeprojects_cap (e : vscodeprojects.Env)
    (c : vscodeprojects.Config) (entries : list vscodeprojects.projectEntry)
    (query : string) (exact : bool) :
  (length (vscodeprojects.Query e c entries query exact)
   ≤ Nat.max 1 (Z.to_nat (vscodeprojects.MaxEntries c)))%nat
  ∧ pb.Subtext <$> vscodeprojects.Query e c entries query exact
    `sublist_of` vscodeprojects.Path <$> entries
  ∧ vscodeprojects.Query e c entries "" exact
    = take (Nat.max 1 (Z.to_nat (vscodeprojects.MaxEntries c)))
        (imap (λ i p, vscodeprojects.itemAt e c "" exact i p) entries).
Proof.
  unfold vscodeprojects.Query. split; [|split].
  - pose proof (scan_length e c query exact 0 0 entries). lia.
  - apply scan_sublist.
  - rewrite scan_empty_query. by rewrite Nat.sub_0_r.
Qed.

Lemma scan_unmatched e c query exact i n entries :
  query ≠ "" →
  (∀ p, p ∈ entries →
        vscodeprojects.fuzzyBest e query
          [vscodeprojects.textOf e p; vscodeprojects.Path p] exact = None) →
  - 2 ^ 31 ≤ vscodeprojects.MinScore c →
  vscodeprojects.MinScore c
    < 1000000000 - Z.of_nat (i + length entries) →
  vscodeprojects.scan e c query exact i n entries
  = vscodeprojects.scan e c "" exact i n entries.
Proof.
  intros Hq. revert i n.
  induction entries as [|p rest IH]; intros i n Hno Hlo Hhi; [done|].
  cbn [vscodeprojects.scan].
  assert (Hitem : vscodeprojects.itemAt e c query exact i p
                  = vscodeprojects.itemAt e c "" exact i p).
  { unfold vscodeprojects.itemAt.
    rewrite (Hno p) by left.
    by destruct (negb (String.eqb query "")). }
  rewrite Hitem.
  assert (Hkeep : (vscodeprojects.MinScore c
                   <? pb.Score (vscodeprojects.itemAt e c "" exact i p))
                  = true).
  { simpl. apply Z.ltb_lt. simpl in Hhi.
    rewrite int32_signed by lia. lia. }
  rewrite Hkeep, orb_true_r. change (String.eqb "" "" || _) with true.
  cbv iota.
  destruct (_ <=? _); [done|]. f_equal.
  apply IH; [|done|].
  - intros p' Hp'. apply Hno. by right.
  - simpl in Hhi. lia.
Qed.

(** X20: a query that matches nothing filters nothing.  When neither the
    text nor the path of any entry scores above zero for a query that is
    not empty, and [MinScore] is a 32-bit value below the recency scores
    of the entries, [Query] returns what it returns for the empty
    query. *)
Theorem X20_vscodeprojects_unmatched (e : vscodeprojects.Env)
    (c : vscodeprojects.Config) (entries : list vscodeprojects.projectEntry)
    (query : string) (exact : bool) :
  query ≠ "" →
  (∀ p v, p ∈ entries →
          v = vscodeprojects.textOf e p ∨ v = vscodeprojects.Path p →
          int32 (vscodeprojects.FuzzyScore e query v exact).1 ≤ 0) →
  - 2 ^ 31 ≤ vscodeprojects.MinScore c →
  vscodeprojects.MinScore c < 1000000000 - Z.of_nat (length entries) →
  vscodeprojects.Query e c entries query exact
  = vscodeprojects.Query e c entries "" exact.
Proof.
  intros Hq Hno Hlo Hhi. unfold vscodeprojects.Query.
  apply scan_unmatched; [done| |done|done].
  intros p Hp.
  apply fuzzyBest_None.
  intros v Hv. apply (Hno p v Hp).
  apply list_elem_of_In in Hv. destruct Hv as [<-|[<-|[]]]; auto.
Qed.

Lemma X20_vscodeprojects_unmatched_witness :
  let e := {| vscodeprojects.FuzzyScore := λ _ _ _, (0, 0);
              vscodeprojects.Base := λ p, p |} in
  let c := {| vscodeprojects.Icon := "visual-studio-code";
              vscodeprojects.MinScore := 20;
              vscodeprojects.MaxEntries := 100 |} in
  let entries := [{| vscodeprojects.Path := "/home/me/elephant";
                     vscodeprojects.Label := "elephant";
                     vscodeprojects.Kind := "folder" |};
                  {| vscodeprojects.Path := "/home/me/notes";
                     vscodeprojects.Label := "";
                     vscodeprojects.Kind := "folder" |}] in
  vscodeprojects.Query e c entries "zzz" false
  = vscodeprojects.Query e c entries "" false.
Proof.
  intros e c entries.
  apply (X20_vscodeprojects_unmatched e c entries "zzz" false).
  - discriminate.
  - intros p v _ _. simpl. vm_compute. discriminate.
  - simpl. lia.
  - simpl. lia.
Defined.

(** * The bluetooth provider *)

(** X21: the actions bluetooth offers.  Every item stands for a device of
    the list and carries the provider name.  An unpaired device offers
    [pair]; a paired and trusted one [remove] and [untrust], and neither
    [connect] nor [disconnect], connected or not; a paired, untrusted,
    connected one [remove], [trust] and [disconnect]; and for a paired,
    untrusted, unconnected one the list of actions starts with the two
    state tokens and holds [remove] and [connect] but not [trust]. *)
Theorem X21_bluetooth_actions (FuzzyScore : string → string → bool → Z)
    (c : bluetooth.Config) (devices : list bluetooth.Device)
    (query : string) (exact : bool) (item : Item) :
  item ∈ bluetooth.Query FuzzyScore c devices query exact →
  pb.Provider item = "bluetooth"
  ∧ ∃ v, v ∈ devices
      ∧ pb.Identifier item = bluetooth.Mac v
      ∧ (bluetooth.Paired v = false →
         pb.State item = ["unpaired"] ∧ pb.Actions item = ["pair"])
      ∧ (bluetooth.Paired v = true → bluetooth.Trusted v = true →
         pb.State item = ["paired"]
         ∧ pb.Actions item = ["remove"; "untrust"])
      ∧ (bluetooth.Paired v = true → bluetooth.Trusted v = false →
         bluetooth.Connected v = true →
         pb.State item = ["paired"]
         ∧ pb.Actions item = ["remove"; "trust"; "disconnect"])
      ∧ (bluetooth.Paired v = true → bluetooth.Trusted v = false →
         bluetooth.Connected v = false →
         pb.State item = ["paired"; "disconnected"]
         ∧ pb.Actions item = ["paired"; "disconnected"; "remove"; "connect"]
         ∧ "trust" ∉ pb.Actions item).
Proof.
  unfold bluetooth.Query. intros Hin.
  apply list_elem_of_omap in Hin as ([k v] & Hkv & He).
  apply list_elem_of_lookup in Hkv as [i Hi].
  rewrite list_lookup_imap in Hi.
  destruct (devices !! i) as [v'|] eqn:Hv; [|done].
  injection Hi as <- <-. simpl in He.
  unfold bluetooth.entry, bluetooth.tokens in He.
  assert (Hd : v' ∈ devices) by by eapply list_elem_of_lookup_2.
  destruct (bluetooth.Paired v') eqn:Hp, (bluetooth.Trusted v') eqn:Ht,
    (bluetooth.Connected v') eqn:Hc; simpl in He;
    (destruct (_ || _); [|done]); injection He as <-;
    (split; [done|]); exists v'; repeat split; try done; try congruence.
  cbn [pb.Actions]. intros Hin. apply list_elem_of_In in Hin. simpl in Hin.
  unfold bluetooth.ActionRemove, bluetooth.ActionConnect in Hin.
  by repeat destruct Hin as [?|Hin].
Qed.

Lemma X21_bluetooth_actions_witness :
  let headset := {| bluetooth.DName := "Headset";
                    bluetooth.Mac := "AA:BB:CC:DD:EE:FF";
                    bluetooth.DIcon := "audio-headset";
                    bluetooth.Paired := true; bluetooth.Trusted := false;
                    bluetooth.Connected := false |} in
  let item := {| pb.Identifier := "AA:BB:CC:DD:EE:FF"; pb.Text := "Headset";
                 pb.Subtext := "AA:BB:CC:DD:EE:FF";
                 pb.Icon := "audio-headset"; pb.Provider := "bluetooth";
                 pb.Score := 1000;
                 pb.Actions := ["paired"; "disconnected"; "remove"; "connect"];
                 pb.State := ["paired"; "disconnected"] |} in
  pb.Provider item = "bluetooth"
  ∧ ∃ v, v ∈ [headset] ∧ pb.Identifier item = bluetooth.Mac v.
Proof.
  intros headset item.
  destruct (X21_bluetooth_actions (λ _ _ _, 0)
              {| bluetooth.Icon := "bluetooth-symbolic";
                 bluetooth.MinScore := 20 |}
              [headset] "" false item) as (Hp & v & Hv & Hi & _).
  - apply list_elem_of_In. vm_compute. left. reflexivity.
  - split; [exact Hp|]. exists v. split; [exact Hv|exact Hi].
Defined.
